(** * PyMPLE: profile-likelihood confidence intervals

    A shallow embedding of [src/PyMPLE.py].  Python floats are IEEE-754
    binary64 values, so they are modelled by Rocq's primitive [float]
    (same format, same rounding, same NaN and infinity behaviour).  The
    Pyomo model, the solver and the two numerical library functions the
    class calls ([numpy.log], [scipy.stats.chi2.isf]) are external
    collaborators: they are the operations of the classes [Pyomo] and
    [Numerics] below.  Dictionaries are [gmap]s keyed by strings, the
    mutable model object is threaded explicitly, and everything the code
    prints or asks of the solver is collected in an event list. *)

From Stdlib Require Import ZArith Floats String List Bool Lia.
From stdpp Require Import base option list gmap strings pretty sorting.
Import ListNotations.

Set Warnings "-inexact-float,-register-all".

(** ** Python values *)

(** The values that show up as constructor arguments, as attributes set
    by [setattr] and as the content of a JSON document. *)
Inductive pyval :=
  | PyNone
  | PyBool (b : bool)
  | PyInt (z : Z)
  | PyFloat (x : float)
  | PyStr (s : string)
  | PyList (l : list pyval)
  | PyDict (d : gmap string pyval).

(** [bool(x)] for a float: zero of either sign is falsy, NaN is truthy. *)
Definition float_truthy (x : float) : bool := negb (x =? 0)%float.

(** Python's truth value of an object, as [if x:] tests it. *)
Definition truthy (v : pyval) : bool :=
  match v with
  | PyNone => false
  | PyBool b => b
  | PyInt z => negb (z =? 0)%Z
  | PyFloat x => float_truthy x
  | PyStr s => negb (String.eqb s "")
  | PyList l => match l with [] => false | _ => true end
  | PyDict d => negb (bool_decide (d = ∅))
  end.

(** [isinstance(v, str)] *)
Definition is_str (v : pyval) : bool :=
  match v with PyStr _ => true | _ => false end.

(** A dictionary of floats stored as an attribute. *)
Definition float_dict (d : gmap string float) : pyval := PyDict (PyFloat <$> d).

(** ** Exceptions and results *)

Inductive exn :=
  | TypeError
  | KeyError (k : string)
  | AttributeError (a : string)
  | IndexError
  | ValueError
  | FileNotFoundError (path : string)
  | JSONDecodeError
  | SolverException
  | OtherError (name : string).

(** What a call does: it returns a value or it raises.  [Unmodelled]
    marks the inputs on which this embedding does not say what the code
    does: a value of a Python type the typed model has no place for (a
    [ctol] that is a float, an [alpha] that is not, a loaded document
    that replaces an attribute of the constructor or a method), and a
    loop model out of fuel, which the fuel [step_CI] gives its loop rules
    out (lemma [loop_fuel]). *)
Inductive result (A : Type) :=
  | Returned (a : A)
  | Raised (e : exn)
  | Unmodelled.
Arguments Returned {A} a.
Arguments Raised {A} e.
Arguments Unmodelled {A}.

(** ** Observable effects *)

(** One printed line (or block of lines); numbers are kept as numbers
    rather than formatted. *)
Inductive line :=
  | Blank                                   (* print(' '*90) *)
  | ParameterLine (pname : string)          (* 'Parameter: {:s}' *)
  | DirectionLine (d : string)              (* 'Direction: Upward' *)
  | BoundLine (b : float)                   (* 'Bound: {:<.3g}' *)
  | TableHead                               (* dash, head, dash *)
  | IterRow (inum : Z) (ierr ipval istep : float) (pname : string)
  | Text (s : string)
  | ValueLine (dB : string) (v : float)     (* '{:s} = {:.4g}' *)
  | SetLine (dB : string) (v : float)       (* '{:s} set to {:.4g}' *)
  | ExnLine.                                (* print(z) *)

Inductive event :=
  | Print (l : line)
  | Solve (ok : bool).      (* one call of solver.solve(self.m) *)

Definition is_solve (e : event) : bool :=
  match e with Solve _ => true | Print _ => false end.

(** The number of solver invocations in a trace. *)
Definition solves (tr : list event) : nat := length (filter is_solve tr).

(** The outcomes of the solver invocations of a trace, in order. *)
Definition solve_log (tr : list event) : list bool :=
  omap (fun e => match e with Solve ok => Some ok | Print _ => None end) tr.

Definition is_row (e : event) : bool :=
  match e with Print (IterRow _ _ _ _ _) => true | _ => false end.

(** The number of table rows in a trace: one for each pass that got as
    far as printing its iteration. *)
Definition rows (tr : list event) : nat := length (filter is_row tr).

(** No printed error statistic exceeds the threshold [etol]. *)
Definition rows_below (etol : float) (tr : list event) : bool :=
  forallb (fun ev => match ev with
                     | Print (IterRow _ e _ _ _) => negb (etol <? e)%float
                     | _ => true
                     end) tr.

(** No pass has ended in the [except] block, which prints the exception
    it caught. *)
Definition uncaught (tr : list event) : bool :=
  forallb (fun ev => match ev with Print ExnLine => false | _ => true end) tr.

(** ** External collaborators *)

Inductive solve_result (Model : Type) :=
  | Solved (m : Model)        (* solve and solutions.load_from went through *)
  | SolveFailed (m : Model).  (* an exception was raised *)
Arguments Solved {Model} m.
Arguments SolveFailed {Model} m.

(** What the class asks of the Pyomo model and of the solver. *)
Class Pyomo (Model : Type) := {
  (** [self.plist[pname].set_value(x)]: the model afterwards, and the
      exception if the call raised one (Pyomo refuses a value outside
      the variable's domain) *)
  set_value : string -> float -> Model -> Model * option exn;
  (** [self.plist[pname].fix()] and [.unfix()]: on a variable they set
      and clear a flag, and raise nothing *)
  fix_var : string -> Model -> Model;
  unfix : string -> Model -> Model;
  (** [self.solver.solve(self.m)] followed by [solutions.load_from] *)
  solve : Model -> solve_result Model;
  (** [value(self.m.obj)]; [None] when it raises (no attribute [obj] on
      the model, or an objective that cannot be evaluated) *)
  obj_value : Model -> option float;
  (** [value(getattr(self.m, pname))]; [None] when it raises *)
  var_value : string -> Model -> option float;
  (** the first [Objective] among [component_objects()], if any, and
      what [value] makes of it: a number or an exception *)
  first_objective : Model -> option (float + exn);
  (** [find_component(p)]: [None] for a name that resolves to nothing,
      otherwise what [value] makes of the component (a [ValueError] for a
      variable without a value) and its [bounds] *)
  find_component :
    string -> Model -> option ((float + exn) * (option float * option float));
  (** [TransformationFactory(name)], [None] for an unknown name; its
      [apply_to] gives the model afterwards and the exception if it
      raised one *)
  TransformationFactory : string -> option (Model -> Model * option exn)
}.

Class Numerics := {
  (** [numpy.log] on a float *)
  log : float -> float;
  (** [scipy.stats.chi2.isf(q, df)] *)
  chi2_isf : float -> float -> float
}.

(** ** The session object *)

(** The data attributes [__init__] sets are fields; the attributes that
    are set later ([ctol], [alpha], [parub], [parlb], [var_dict],
    [obj_dict], and whatever else [load_json] finds in a file) live in
    [attrs], as in the instance dictionary. *)
Record PyMPLE := {
  pnames : list string;
  obj : float;
  popt : gmap string float;
  pbounds : gmap string (option float * option float);
  attrs : gmap string pyval
}.

(** The attributes of the constructor and the methods of the class.
    Assigning to one of these names, or to a name of Python's own
    ([__class__], [__dict__], ...), changes what the fields and the
    functions below stand for. *)
Definition init_attrs : list string :=
  ["solver"; "m"; "pnames"; "plist"; "obj"; "popt"; "pbounds"].

Definition methods : list string :=
  ["step_CI"; "get_CI"; "ebarplots"; "plot_PL"; "to_json"; "load_json"].

Definition reserved (a : string) : bool :=
  bool_decide (a ∈ init_attrs ++ methods) || String.prefix "__" a.

(** [setattr(self, a, v)] for a name [a] that is not reserved: an
    entry of the instance dictionary. *)
Definition setattr (self : PyMPLE) (a : string) (v : pyval) : PyMPLE :=
  {| pnames := pnames self; obj := obj self; popt := popt self;
     pbounds := pbounds self; attrs := <[a := v]> (attrs self) |}.

Definition getattr (self : PyMPLE) (a : string) : result pyval :=
  match attrs self !! a with
  | Some v => Returned v
  | None => Raised (AttributeError a)
  end.

(** ** The step engine: [step_CI] *)

Local Open Scope float_scope.

(** ['_'.join([pname, dr, str(i)])] *)
Definition key (pname dr : string) (i : Z) : string :=
  pname +:+ "_" +:+ dr +:+ "_" +:+ pretty i.

(** [dr == 'up']; every other string steps towards the lower bound. *)
Definition is_up (dr : string) : bool := String.eqb dr "up".

Definition dB (dr : string) : string := if is_up dr then "UB" else "LB".
Definition drer (dr : string) : string := if is_up dr then "upper" else "lower".
Definition bd_eps (dr : string) : float := if is_up dr then 1.0e-5 else - 1.0e-5.

(** The step fraction the loop starts with: negated when stepping down. *)
Definition signed_stepfrac (dr : string) (stepfrac : float) : float :=
  if is_up dr then stepfrac else - stepfrac.

(** The bound the walk is stopped at.  The declared bound is used when it
    is truthy; [None] and zero fall to the defaults. *)
Definition target_bound (dr : string) (bds : option float * option float) : float :=
  if is_up dr then
    match snd bds with
    | Some b => if float_truthy b then b else infinity
    | None => infinity
    end
  else
    match fst bds with
    | Some b => if float_truthy b then b else 1e-10
    | None => 1e-10
    end.

(** [nextdr > bound] when stepping up, [nextdr < bound] otherwise. *)
Definition crosses (dr : string) (nextdr bound : float) : bool :=
  if is_up dr then bound <? nextdr else nextdr <? bound.

(** The local [pprint]: the table head every twentieth iteration. *)
Definition pprint (pname : string) (inum : Z) (ierr ipval istep : float) : list event :=
  if (inum mod 20 =? 0)%Z
  then [Print TableHead; Print (IterRow inum ierr ipval istep pname)]
  else [Print (IterRow inum ierr ipval istep pname)].

(** The variables of the [while] loop. *)
Record locals := Locals {
  i : Z;
  err : float;
  pstep : float;
  pardr : float;
  nextdr : float;
  bdreach : bool;
  stepfrac : float;
  states_dict : gmap string float;
  _var_dict : gmap string float;
  _obj_dict : gmap string float
}.

(** What [step_CI] returns: the bound and the three dictionaries. *)
Definition step_value : Type :=
  float * gmap string float * gmap string float * gmap string float.

(** The names that stay fixed while the loop runs. *)
Record frame := Frame {
  f_pname : string;
  f_dr : string;
  f_popt : float;       (* self.popt[pname] *)
  f_bound : float;
  f_def_SF : float;
  f_ctol : Z;
  f_etol : float;
  f_obj_CI : float
}.

(** After one pass through the loop body: the loop goes on, or the
    function has returned or raised. *)
Inductive flow :=
  | Next (l : locals)
  | Done (r : result (option step_value)).

Section Engine.
Context {Model : Type} `{!Pyomo Model} `{!Numerics}.

(** [err = 2*(np.log(value(self.m.obj)) - np.log(_obj_CI))] *)
Definition error_statistic (objective baseline : float) : float :=
2 * (log objective - log baseline).

(** The measure [d] of the step-size adaptation.  The dictionary
  lookups can fail, which is a [KeyError] inside the [try]. *)
Definition progress (od : gmap string float) (pname dr : string) (i : Z)
  (err stepfrac : float) : option float :=
if (0 <? i)%Z then
  match od !! key pname dr (i - 1), od !! key pname dr i with
  | Some oprev, Some ocur =>
      Some (abs (log oprev - log ocur) / (abs (log oprev) * stepfrac))
  | _, _ => None
  end
else Some err.

(** [if d <= 0.01: stepfrac = 1.05*stepfrac else: stepfrac = def_SF] *)
Definition adapt (d stepfrac def_SF : float) : float :=
if d <=? 0.01 then 1.05 * stepfrac else def_SF.

(** The [except Exception] block, entered with the locals as they were
  when the exception was raised. *)
Definition handler (c : frame) (l : locals) (m : Model) (evs : list event)
  : flow * Model * list event :=
let prname := key (f_pname c) (f_dr c) (i l - 1) in
let iname := key (f_pname c) (f_dr c) (i l) in
match _var_dict l !! prname with
| None => (Done (Raised (KeyError prname)), m, evs ++ [Print ExnLine])
| Some v =>
    (Done (Returned (Some (v, delete iname (states_dict l),
                           delete iname (_var_dict l),
                           delete iname (_obj_dict l)))),
     m,
     evs ++ [Print ExnLine; Print (Text "Error occured!");
             Print (SetLine (dB (f_dr c)) v)])
end.

(** One pass through the body of the [while] loop.  [set_value] is
  called before the [try]; the solver call and the two readings of
  the model are inside it.  (The objective is read a second time for
  [_obj_dict]; the model has not changed in between.) *)
Definition iteration (c : frame) (l : locals) (m : Model)
  : flow * Model * list event :=
let pstep' := pstep l + stepfrac l * f_popt c in
let pardr' := f_popt c + pstep' in
let iname := key (f_pname c) (f_dr c) (i l) in
match set_value (f_pname c) pardr' m with
| (m, Some e) => (Done (Raised e), m, [])
| (m, None) =>
    match solve m with
    | SolveFailed m' =>
        handler c (Locals (i l) (err l) pstep' pardr' (nextdr l) (bdreach l)
                     (stepfrac l) (states_dict l) (_var_dict l) (_obj_dict l))
          m' [Solve false]
    | Solved m' =>
        match obj_value m' with
        | None =>
            handler c (Locals (i l) (err l) pstep' pardr' (nextdr l) (bdreach l)
                         (stepfrac l) (states_dict l) (_var_dict l) (_obj_dict l))
              m' [Solve true]
        | Some o =>
            let err' := error_statistic o (f_obj_CI c) in
            match var_value (f_pname c) m' with
            | None =>
                handler c (Locals (i l) err' pstep' pardr' (nextdr l) (bdreach l)
                             (stepfrac l) (states_dict l) (_var_dict l) (_obj_dict l))
                  m' [Solve true]
            | Some v =>
                let vd := <[iname := v]> (_var_dict l) in
                let od := <[iname := o]> (_obj_dict l) in
                match progress od (f_pname c) (f_dr c) (i l) err' (stepfrac l) with
                | None =>
                    handler c (Locals (i l) err' pstep' pardr' (nextdr l) (bdreach l)
                                 (stepfrac l) (states_dict l) vd od)
                      m' [Solve true]
                | Some d =>
                    let stepfrac' := adapt d (stepfrac l) (f_def_SF c) in
                    let out := Solve true
                               :: pprint (f_pname c) (i l) err' pardr'
                                    (stepfrac' * f_popt c) in
                    if f_etol c <? err' then
                      (Done (Returned (Some (pardr', states_dict l, vd, od))), m',
                       out ++ [Print (Text ("Reached " +:+ drer (f_dr c) +:+ " CI!"));
                               Print (ValueLine (dB (f_dr c)) pardr')])
                    else if (i l =? f_ctol c - 1)%Z then
                      (Done (Returned (Some ((if is_up (f_dr c) then infinity
                                              else neg_infinity),
                                             states_dict l, vd, od))), m',
                       out ++ [Print (Text "Maximum steps taken!")])
                    else
                      let nextdr' := nextdr l + f_popt c * stepfrac' in
                      let bdreach' := crosses (f_dr c) nextdr' (f_bound c) in
                      if bdreach' then
                        (Done (Returned (Some (pardr', states_dict l, vd, od))), m',
                         out ++ [Print (Text ("Reached parameter " +:+ drer (f_dr c)
                                              +:+ " bound!"));
                                 Print (ValueLine (dB (f_dr c)) pardr')])
                      else
                        (Next (Locals (i l + 1) err' pstep' pardr' nextdr' bdreach'
                                 stepfrac' (states_dict l) vd od), m', out)
                end
            end
        end
    end
end.

(** [i < ctol and err <= etol and not bdreach] *)
Definition loop_cond (c : frame) (l : locals) : bool :=
(i l <? f_ctol c)%Z && (err l <=? f_etol c) && negb (bdreach l).

(** The [while] loop.  Leaving it through its condition makes the
  function fall off its end, which returns [None]. *)
Fixpoint loop (fuel : nat) (c : frame) (l : locals) (m : Model)
  : result (option step_value) * Model * list event :=
if loop_cond c l then
  match fuel with
  | O => (Unmodelled, m, [])
  | S fuel =>
      match iteration c l m with
      | (Next l', m', evs) =>
          let '(r, m'', evs') := loop fuel c l' m' in (r, m'', evs ++ evs')
      | (Done r, m', evs) => (r, m', evs)
      end
  end
else (Returned None, m, []).

(** The locals before the first pass. *)
Definition init_locals (c : frame) : locals :=
let nextdr := f_popt c - bd_eps (f_dr c) in
Locals 0 0 0 (f_popt c) nextdr (crosses (f_dr c) nextdr (f_bound c))
  (f_def_SF c) ∅ ∅ ∅.

(** [self.ctol], which [get_CI] sets to [maxSteps]: the step budget as
  an integer ([True] and [False] are the integers [1] and [0]).  The
  loop compares it with the counter, which works for any number; a
  budget that is not an integer is outside this model. *)
Definition get_ctol (self : PyMPLE) : result Z :=
match attrs self !! "ctol" with
| Some (PyInt n) => Returned n
| Some (PyBool b) => Returned (if b then 1 else 0)%Z
| Some _ => Unmodelled
| None => Raised (AttributeError "ctol")
end.

(** [self.alpha], as a float.  What [chi2.isf] makes of a value of
  another type is outside this model. *)
Definition get_alpha (self : PyMPLE) : result float :=
match attrs self !! "alpha" with
| Some (PyFloat a) => Returned a
| Some _ => Unmodelled
| None => Raised (AttributeError "alpha")
end.

(** The frame [step_CI] sets up before its loop, or the exception the
  set-up raises. *)
Definition make_frame (self : PyMPLE) (pname dr : string) (stepfrac : float)
  : result frame :=
match pbounds self !! pname with
| None => Raised (KeyError pname)
| Some bds =>
    match get_ctol self with
    | Raised e => Raised e
    | Unmodelled => Unmodelled
    | Returned ctol =>
        match get_alpha self with
        | Raised e => Raised e
        | Unmodelled => Unmodelled
        | Returned alpha =>
            match popt self !! pname with
            | None => Raised (KeyError pname)
            | Some p =>
                Returned (Frame pname dr p (target_bound dr bds)
                            (signed_stepfrac dr stepfrac) ctol
                            (chi2_isf alpha 1) (obj self))
            end
        end
    end
end.

(** [step_CI(self, pname, dr=dr, stepfrac=stepfrac)] on the model [m]. *)
Definition step_CI (self : PyMPLE) (pname dr : string) (stepfrac : float)
  (m : Model) : result (option step_value) * Model * list event :=
match make_frame self pname dr stepfrac with
| Raised e => (Raised e, m, [])
| Unmodelled => (Unmodelled, m, [])
| Returned c => loop (Z.to_nat (f_ctol c)) c (init_locals c) m
end.

End Engine.

(** ** Computations on the model *)

(** Code that mutates the model, prints and may raise: a state, writer
    and error monad over the model. *)
Definition comp (Model A : Type) : Type :=
  Model -> result A * Model * list event.

Definition ret {Model A} (a : A) : comp Model A :=
  fun m => (Returned a, m, []).

Definition raise {Model A} (e : exn) : comp Model A :=
  fun m => (Raised e, m, []).

Definition bind {Model A B} (x : comp Model A) (k : A -> comp Model B)
    : comp Model B :=
  fun m =>
    match x m with
    | (Returned a, m', evs) =>
        let '(r, m'', evs') := k a m' in (r, m'', evs ++ evs')
    | (Raised e, m', evs) => (Raised e, m', evs)
    | (Unmodelled, m', evs) => (Unmodelled, m', evs)
    end.

Definition print {Model} (l : line) : comp Model unit :=
  fun m => (Returned tt, m, [Print l]).

Definition update {Model} (f : Model -> Model) : comp Model unit :=
  fun m => (Returned tt, f m, []).

Definition lift {Model A} (r : result A) : comp Model A :=
  fun m => (r, m, []).

Notation "'let*' x ':=' c 'in' k" := (bind c (fun x => k))
  (at level 10, x name, c at level 100, k at level 200).
Notation "c1 ';;' c2" := (bind c1 (fun _ => c2))
  (at level 100, c2 at level 200, right associativity).

(** A call that gives the model afterwards and maybe an exception. *)
Definition attempt {Model} (f : Model -> Model * option exn) : comp Model unit :=
  fun m =>
    match f m with
    | (m', None) => (Returned tt, m', [])
    | (m', Some e) => (Raised e, m', [])
    end.

(** [d[k]] on a dictionary *)
Definition subscript {Model A} (d : gmap string A) (k : string) : comp Model A :=
  match d !! k with
  | Some v => ret v
  | None => raise (KeyError k)
  end.

(** ** The orchestrator: [get_CI] *)

(** The dictionaries [get_CI] accumulates over the parameters. *)
Record acc := Acc {
  a_states : gmap string float;
  a_parub : gmap string float;
  a_parlb : gmap string float;
  a_var : gmap string float;
  a_obj : gmap string float
}.

Section Orchestrator.
Context {Model : Type} `{!Pyomo Model} `{!Numerics}.

(** ['Bound: {:<.3g}'.format(b)]: formatting [None] is a [TypeError]. *)
Definition print_bound (b : option float) : comp Model unit :=
match b with
| Some x => print (BoundLine x)
| None => raise TypeError
end.

(** [v, states, vars, obj = self.step_CI(...)]: unpacking [None] is a
  [TypeError]. *)
Definition unpack (r : option step_value) : comp Model step_value :=
match r with
| Some v => ret v
| None => raise TypeError
end.

(** The body of the [for pname in self.pnames] loop. *)
Definition profile (self : PyMPLE) (stepfrac : float) (pname : string) (a : acc)
  : comp Model acc :=
update (fix_var pname) ;;
print Blank ;;
print (ParameterLine pname) ;;
print (DirectionLine "Upward") ;;
let* bds := subscript (pbounds self) pname in
print_bound (snd bds) ;;
print Blank ;;
let* up := step_CI self pname "up" stepfrac in
let* r := unpack up in
let '(ub, upstates, upvars, upobj) := r in
let parub := <[pname := ub]> (a_parub a) in
let states_dict := upstates ∪ a_states a in
let _var_dict := upvars ∪ a_var a in
let _obj_dict := upobj ∪ a_obj a in
print Blank ;;
print (ParameterLine pname) ;;
print (DirectionLine "Downward") ;;
let* bds := subscript (pbounds self) pname in
print_bound (fst bds) ;;
print Blank ;;
let* p := subscript (popt self) pname in
attempt (set_value pname p) ;;
let* dn := step_CI self pname "down" stepfrac in
let* r := unpack dn in
let '(lb, dnstates, dnvars, dnobj) := r in
let parlb := <[pname := lb]> (a_parlb a) in
let states_dict := dnstates ∪ states_dict in
let _var_dict := dnvars ∪ _var_dict in
let _obj_dict := dnobj ∪ _obj_dict in
let* p := subscript (popt self) pname in
attempt (set_value pname p) ;;
update (unfix pname) ;;
ret (Acc states_dict parub parlb _var_dict _obj_dict).

(** The [for] loop over the parameter names. *)
Fixpoint profile_all (self : PyMPLE) (stepfrac : float) (names : list string)
  (a : acc) : comp Model acc :=
match names with
| [] => ret a
| pname :: rest =>
    let* a' := profile self stepfrac pname a in
    profile_all self stepfrac rest a'
end.

(** The session once [get_CI] has set [ctol] and [alpha]. *)
Definition configured (self : PyMPLE) (maxSteps : Z) (alpha : float) : PyMPLE :=
setattr (setattr self "ctol" (PyInt maxSteps)) "alpha" (PyFloat alpha).

(** The session once [get_CI] has stored its results. *)
Definition completed (self : PyMPLE) (a : acc) : PyMPLE :=
setattr (setattr (setattr (setattr self
  "parub" (float_dict (a_parub a)))
  "parlb" (float_dict (a_parlb a)))
  "var_dict" (float_dict (a_var a)))
  "obj_dict" (float_dict (a_obj a)).

(** [get_CI(self, maxSteps, alpha, stepfrac)]: the returned dictionary
  together with the session as the call leaves it. *)
Definition get_CI (self : PyMPLE) (maxSteps : Z) (alpha stepfrac : float)
  : comp Model (gmap string (gmap string float) * PyMPLE) :=
fun m =>
  let self1 := configured self maxSteps alpha in
  match profile_all self1 stepfrac (pnames self1)
          (Acc ∅ (popt self1) (popt self1) ∅ ∅) m with
  | (Returned a, m', evs) =>
      (Returned ({[ "Lower Bound" := a_parlb a; "Upper Bound" := a_parub a ]},
                 completed self1 a), m', evs)
  | (Raised e, m', evs) => (Raised e, m', evs)
  | (Unmodelled, m', evs) => (Unmodelled, m', evs)
  end.

End Orchestrator.

(** ** Construction: [__init__] *)

Section Construction.
Context {Model : Type} `{!Pyomo Model}.

(** [tfd = TransformationFactory("dae." + dae); tfd.apply_to(self.m)]:
  an unknown name gives [None], whose [apply_to] does not exist; a
  known transformation may itself raise. *)
Definition discretize (dae : pyval) : comp Model unit :=
match dae with
| PyStr s =>
    match TransformationFactory ("dae." +:+ s) with
    | Some tfd => attempt tfd
    | None => raise (AttributeError "apply_to")
    end
| _ => raise TypeError
end.

(** [r = self.solver.solve(self.m); self.m.solutions.load_from(r)],
  outside any [try]. *)
Definition initial_solve : comp Model unit :=
fun m =>
  match solve m with
  | Solved m' => (Returned tt, m', [Solve true])
  | SolveFailed m' => (Raised SolverException, m', [Solve false])
  end.

(** [m_obj = list(filter(...))[0]; self.obj = value(m_obj)] *)
Definition baseline : comp Model float :=
fun m =>
  match first_objective m with
  | Some (inl o) => (Returned o, m, [])
  | Some (inr e) => (Raised e, m, [])
  | None => (Raised IndexError, m, [])
  end.

(** [self.popt = {p: value(self.plist[p]) for p in self.pnames}].  For
  a name that resolves to nothing [self.plist[p]] is [None] and so is
  its [value]; the comprehension goes on, and the one for the bounds
  raises at that name. *)
Fixpoint optima (names : list string) (po : gmap string float)
  : comp Model (gmap string float) :=
match names with
| [] => ret po
| p :: rest =>
    fun m =>
      match find_component p m with
      | Some (inl v, _) => optima rest (<[p := v]> po) m
      | Some (inr e, _) => (Raised e, m, [])
      | None => optima rest po m
      end
end.

(** [pbounds = {p: self.plist[p].bounds for p in self.pnames}] *)
Fixpoint bounds (names : list string) (pb : gmap string (option float * option float))
  : comp Model (gmap string (option float * option float)) :=
match names with
| [] => ret pb
| p :: rest =>
    fun m =>
      match find_component p m with
      | Some (_, bds) => bounds rest (<[p := bds]> pb) m
      | None => (Raised (AttributeError "bounds"), m, [])
      end
end.

(** [PyMPLE(model, pnames, solver, solver_kwds, tee, dae, dae_kwds,
  presolve)].  The solver name and the option dictionaries go to the
  solver and transformation factories unread. *)
Definition init (pnames : list string) (solver : string)
  (solver_kwds : gmap string pyval) (tee : bool) (dae : pyval)
  (dae_kwds : gmap string pyval) (presolve : bool) : comp Model PyMPLE :=
(if truthy dae && presolve then discretize dae else ret tt) ;;
(if presolve then initial_solve else ret tt) ;;
let* o := baseline in
let* po := optima pnames ∅ in
let* pb := bounds pnames ∅ in
ret {| pnames := pnames; obj := o; popt := po; pbounds := pb; attrs := ∅ |}.

End Construction.

(** ** Export and import: [to_json], [load_json] *)

(** The [json] module, on file contents of type [File]. *)
Class Json (File : Type) := {
  (** [json.dump] *)
  json_dump : pyval -> File;
  (** [json.load]; [None] when the text is not a JSON document *)
  json_load : File -> option pyval
}.

Definition atts : list string := ["alpha"; "parub"; "parlb"; "var_dict"; "obj_dict"].

(** [for att in atts: sv_dict[att] = getattr(self, att)] *)
Fixpoint collect (self : PyMPLE) (names : list string) (sv_dict : gmap string pyval)
    : result (gmap string pyval) :=
  match names with
  | [] => Returned sv_dict
  | att :: rest =>
      match getattr self att with
      | Returned v => collect self rest (<[att := v]> sv_dict)
      | Raised e => Raised e
      | Unmodelled => Unmodelled
      end
  end.

Section Persistence.
Context {File : Type} `{!Json File}.

(** [to_json(self, filename)] on the files [fs]. *)
Definition to_json (self : PyMPLE) (filename : string) (fs : gmap string File)
  : result unit * gmap string File :=
match collect self atts ∅ with
| Returned sv_dict => (Returned tt, <[filename := json_dump (PyDict sv_dict)]> fs)
| Raised e => (Raised e, fs)
| Unmodelled => (Unmodelled, fs)
end.

(** [load_json(self, filename)]: every key of the document becomes an
  attribute.  A document with a reserved key replaces an attribute of
  the constructor or a method, which the record cannot show: such a
  document is outside this model.  (A document written by [to_json]
  has the five keys of [atts], none of them reserved.) *)
Definition load_json (self : PyMPLE) (filename : string) (fs : gmap string File)
  : result PyMPLE :=
match fs !! filename with
| None => Raised (FileNotFoundError filename)
| Some f =>
    match json_load f with
    | None => Raised JSONDecodeError
    | Some (PyDict sv_dict) =>
        if decide (map_Forall (fun att _ => reserved att = false) sv_dict)
        then Returned (map_fold (fun att v self => setattr self att v) self sv_dict)
        else Unmodelled
    | Some _ => Raised (AttributeError "keys")
    end
end.

End Persistence.

(** ** Plotting: the trajectory keys [plot_PL] selects *)

(** The character ['_']. *)
Definition underscore : Ascii.ascii :=
Ascii.Ascii true true true true true false true false.

(** [x.split('_')[0]]: the text before the first underscore, all of
    [x] when it has none. *)
Fixpoint split_head (x : string) : string :=
match x with
| EmptyString => EmptyString
| String a rest =>
    if Ascii.eqb a underscore then EmptyString else String a (split_head rest)
end.

(** The order of Python's [sorted] on strings. *)
Definition string_le (a b : string) : Prop := String.leb a b = true.

#[global] Instance string_le_dec a b : Decision (string_le a b).
Proof. unfold string_le. apply _. Defined.

(** [pkeys = sorted(filter(lambda x: x.split('_')[0] == pname,
    self.var_dict.keys()))] *)
Definition pkeys (pname : string) (var_dict : gmap string float) : list string :=
merge_sort string_le
  (filter (fun k => split_head k = pname) ((map_to_list var_dict).*1)).

(** ** A small concrete model *)

(** A model with one variable, used to run the code on concrete inputs:
    the solver evaluates a given objective at the variable's value and
    fails where the objective is undefined. *)
Module Toy.

Record model := Model { value : float; objective : float }.

Definition pyomo (f : float -> option float)
  (bds : option float * option float) : Pyomo model := {|
set_value _ v m := (Model v (objective m), None);
fix_var _ m := m;
unfix _ m := m;
solve m :=
  match f (value m) with
  | Some o => Solved (Model (value m) o)
  | None => SolveFailed m
  end;
obj_value m := Some (objective m);
var_value _ m := Some (value m);
first_objective m := Some (inl (objective m));
find_component _ m := Some (inl (value m), bds);
TransformationFactory name :=
  if String.eqb name "dae.finite_difference" then Some (fun m => (m, None)) else None
|}.

(** [numpy.log] at a few arguments, NaN elsewhere; the threshold is
  [chi2.isf(0.05, 1)]. *)
Definition numerics : Numerics := {|
log x :=
  if x =? 1 then 0
  else if x =? 2 then 0.6931471805599453
  else if x =? 4 then 1.3862943611198906
  else if x =? 0 then neg_infinity
  else if x =? infinity then infinity
  else nan;
chi2_isf _ _ := 3.841458820694124
|}.

(** The session [__init__] builds on a solved model: parameter ["p"] at
  its optimum [p0] with objective [o]. *)
Definition fitted (p0 o : float) (bds : option float * option float) : PyMPLE := {|
pnames := ["p"];
obj := o;
popt := {[ "p" := p0 ]};
pbounds := {[ "p" := bds ]};
attrs := ∅
|}.

(** The same once [get_CI] has set [ctol] and [alpha = 0.05]. *)
Definition session (p0 o : float) (bds : option float * option float)
  (maxSteps : Z) : PyMPLE :=
configured (fitted p0 o bds) maxSteps 0.05.

(** The objective that is [1] everywhere. *)
Definition flat (_ : float) : option float := Some 1.

(** The objective that is [1] up to [limit], where the solver starts
  to fail. *)
Definition flat_until (limit : float) (x : float) : option float :=
if x <=? limit then Some 1 else None.

(** A run of [step_CI] for ["p"], from the optimum [10] with baseline
  objective [1] and step fraction [0.01]. *)
Definition run (f : float -> option float) (bds : option float * option float)
  (maxSteps : Z) (dr : string) : result (option step_value) * model * list event :=
@step_CI model (pyomo f bds) numerics (session 10 1 bds maxSteps) "p" dr 0.01
(Model 10 1).

(** The frame of such a run. *)
Definition frame_of (bds : option float * option float) (dr : string) : result frame :=
@make_frame numerics (session 10 1 bds 100) "p" dr 0.01.

(** The frame of the walk downwards without bounds, and the loop's
    locals, model and events after its first pass on the flat
    objective. *)
Definition down_frame : frame :=
Frame "p" "down" 10 1e-10 (-0.01) 100 3.841458820694124 1.

Definition first_pass : flow * model * list event :=
@iteration model (pyomo flat (None, None)) numerics down_frame
  (init_locals down_frame) (Model 10 1).

Definition after_first_pass : locals :=
match first_pass.1.1 with
| Next l => l
| Done _ => init_locals down_frame
end.

(** An objective that is [2] above [9.85] and [4] below, and the first
    pass of the walk downwards on it. *)
Definition rising (x : float) : option float :=
if x <? 9.85 then Some 4 else Some 2.

Definition rising_pass : flow * model * list event :=
@iteration model (pyomo rising (None, None)) numerics down_frame
  (init_locals down_frame) (Model 10 1).

Definition after_rising_pass : locals :=
match rising_pass.1.1 with
| Next l => l
| Done _ => init_locals down_frame
end.

(** The same model when its objective is not called [obj]: the solver
    works, and reading [self.m.obj] raises. *)
Definition unnamed (f : float -> option float)
  (bds : option float * option float) : Pyomo model := {|
set_value := @set_value _ (pyomo f bds);
fix_var := @fix_var _ (pyomo f bds);
unfix := @unfix _ (pyomo f bds);
solve := @solve _ (pyomo f bds);
obj_value _ := None;
var_value := @var_value _ (pyomo f bds);
first_objective := @first_objective _ (pyomo f bds);
find_component := @find_component _ (pyomo f bds);
TransformationFactory := @TransformationFactory _ (pyomo f bds)
|}.

(** The constructor on the model at [10] with objective [1]. *)
Definition construct (dae : pyval) (presolve : bool) : result PyMPLE * model * list event :=
@init model (pyomo flat (None, None)) ["p"] "ipopt" ∅ false dae ∅ presolve (Model 10 1).

(** A [json] module whose files hold the document itself. *)
Definition json : Json pyval := {| json_dump v := v; json_load f := Some f |}.

(** [get_CI] with three steps on the flat objective. *)
Definition intervals : result (gmap string (gmap string float) * PyMPLE) * model * list event :=
@get_CI model (pyomo flat (Some 9, Some 11)) numerics (fitted 10 1 (Some 9, Some 11))
3 0.05 0.01 (Model 10 1).

End Toy.

(** * Properties *)

(** ** Keys *)

Lemma key_inj pname dr : Inj (=) (=) (key pname dr).
Proof.
  intros a b Hab. unfold key in Hab.
  do 4 apply String.app_inj in Hab.
  by apply (inj pretty).
Qed.

Lemma key_neq pname dr (a b : Z) : a ≠ b → key pname dr a ≠ key pname dr b.
Proof. intros Hne Heq. by apply Hne, (key_inj pname dr). Qed.

(** ** Traces *)

Lemma solve_log_app tr1 tr2 : solve_log (tr1 ++ tr2) = solve_log tr1 ++ solve_log tr2.
Proof. unfold solve_log. by rewrite omap_app. Qed.

Lemma solves_app tr1 tr2 : solves (tr1 ++ tr2) = (solves tr1 + solves tr2)%nat.
Proof. unfold solves. by rewrite filter_app, length_app. Qed.

Lemma solves_log tr : solves tr = length (solve_log tr).
Proof.
  unfold solves, solve_log. induction tr as [|[?|?] tr IH]; [done| |].
  - rewrite filter_cons_False by (cbn; tauto). exact IH.
  - rewrite filter_cons_True by (cbn; tauto). cbn. by rewrite IH.
Qed.

Lemma solve_log_pprint pname inum ierr ipval istep :
  solve_log (pprint pname inum ierr ipval istep) = [].
Proof. unfold pprint. by destruct (_ =? _)%Z. Qed.

Lemma elem_of_pprint e pname inum ierr ipval istep :
  e ∈ pprint pname inum ierr ipval istep →
  e = Print TableHead ∨ e = Print (IterRow inum ierr ipval istep pname).
Proof.
  unfold pprint. destruct (_ =? _)%Z; rewrite ?elem_of_cons, elem_of_nil; tauto.
Qed.

Lemma rows_app tr1 tr2 : rows (tr1 ++ tr2) = (rows tr1 + rows tr2)%nat.
Proof. unfold rows. by rewrite filter_app, length_app. Qed.

Lemma rows_pprint pname inum ierr ipval istep :
  rows (pprint pname inum ierr ipval istep) = 1%nat.
Proof. unfold pprint. by destruct (_ =? _)%Z. Qed.

Lemma row_in_pprint pname inum ierr ipval istep :
  Print (IterRow inum ierr ipval istep pname) ∈ pprint pname inum ierr ipval istep.
Proof. unfold pprint. destruct (_ =? _)%Z; set_solver. Qed.

(** ** The loop as a transition system *)

(** Case analysis on the innermost scrutinee of a hypothesis, until no
    [match] is left in it. *)
Ltac split_matches H :=
  repeat match type of H with
         | context [match ?x with _ => _ end] =>
             lazymatch x with
             | context [match _ with _ => _ end] => fail
             | _ => destruct x eqn:?
             end
         end.

Section LoopFacts.
Context {Model : Type} `{!Pyomo Model} `{!Numerics}.
Implicit Types (c : frame) (l : locals) (m : Model) (tr evs : list event).

(** [reach c l0 m0 l m tr]: from the locals [l0] and the model [m0], some
  number of complete passes through the loop body leads to [l] and
  [m], with the events [tr]. *)
Inductive reach c l0 m0 : locals → Model → list event → Prop :=
| reach_start : reach c l0 m0 l0 m0 []
| reach_pass l m tr l' m' evs :
    reach c l0 m0 l m tr →
    loop_cond c l = true →
    iteration c l m = (Next l', m', evs) →
    reach c l0 m0 l' m' (tr ++ evs).

(** How the loop is left from [l] and [m]: through its condition, or
  from within a last pass. *)
Definition leaves c l m (r : result (option step_value)) m' evs : Prop :=
(loop_cond c l = false ∧ r = Returned None ∧ m' = m ∧ evs = [])
∨ (loop_cond c l = true ∧ iteration c l m = (Done r, m', evs)).

Lemma iteration_next_i c l m l' m' evs :
iteration c l m = (Next l', m', evs) → i l' = (i l + 1)%Z.
Proof.
unfold iteration, handler. intros Hit.
split_matches Hit; by simplify_eq.
Qed.

(** Fuel for the remaining iterations is enough. *)
Lemma loop_fuel fuel c l m :
(Z.to_nat (f_ctol c - i l) ≤ fuel)%nat →
(loop fuel c l m).1.1 ≠ Unmodelled.
Proof.
revert l m. induction fuel as [|fuel IH]; intros l m Hfuel; cbn [loop].
- destruct (loop_cond c l) eqn:Hc; [|done].
  unfold loop_cond in Hc. apply andb_prop in Hc as [Hc _].
  apply andb_prop in Hc as [Hc _]. lia.
- destruct (loop_cond c l) eqn:Hc; [|done].
  destruct (iteration c l m) as [[[l'|r] m'] evs] eqn:Hit.
  + specialize (IH l' m'). apply iteration_next_i in Hit.
    destruct (loop fuel c l' m') as [[r m''] evs']. cbn in *.
    apply IH. lia.
  + cbn. unfold iteration, handler in Hit.
    split_matches Hit; by simplify_eq.
Qed.

(** A run of the loop is a sequence of complete passes followed by the
  way the loop is left. *)
Lemma loop_run fuel c l0 m0 l m tr0 r m' tr :
reach c l0 m0 l m tr0 →
loop fuel c l m = (r, m', tr) →
r ≠ Unmodelled →
∃ lf mf trf evs,
  reach c l0 m0 lf mf trf ∧ leaves c lf mf r m' evs ∧ tr0 ++ tr = trf ++ evs.
Proof.
revert l m tr0 tr. induction fuel as [|fuel IH]; intros l m tr0 tr Hr Hl Hne;
  cbn [loop] in Hl; destruct (loop_cond c l) eqn:Hc.
- by simplify_eq.
- simplify_eq. exists l, m', tr0, []. split; [done|]. split; [by left|done].
- destruct (iteration c l m) as [[[l'|r'] m1] evs] eqn:Hit.
  + destruct (loop fuel c l' m1) as [[r2 m2] evs2] eqn:Hl2. simplify_eq.
    destruct (IH l' m1 (tr0 ++ evs) evs2) as (lf & mf & trf & evf & ? & ? & Heq);
      [by eapply reach_pass|done|done|].
    exists lf, mf, trf, evf. by rewrite app_assoc.
  + simplify_eq. exists l, m, tr0, tr. split; [done|]. split; [by right|done].
- simplify_eq. exists l, m', tr0, []. split; [done|]. split; [by left|done].
Qed.

(** [step_CI] always finishes: the fuel it gives its loop is enough. *)
Lemma step_CI_total self pname dr sf m c :
make_frame self pname dr sf = Returned c →
(step_CI self pname dr sf m).1.1 ≠ Unmodelled.
Proof.
unfold step_CI. intros ->. apply loop_fuel. cbn. lia.
Qed.

(** A run of [step_CI] in terms of the transition system. *)
Lemma step_CI_run self pname dr sf m c r m' tr :
make_frame self pname dr sf = Returned c →
step_CI self pname dr sf m = (r, m', tr) →
∃ lf mf trf evs,
  reach c (init_locals c) m lf mf trf ∧ leaves c lf mf r m' evs ∧ tr = trf ++ evs.
Proof.
intros Hf Hs. pose proof (step_CI_total self pname dr sf m c Hf) as Ht.
rewrite Hs in Ht. cbn in Ht. unfold step_CI in Hs. rewrite Hf in Hs.
eapply (loop_run _ c _ _ _ _ []) in Hs; [|constructor|done].
exact Hs.
Qed.

End LoopFacts.
(** ** One pass through the loop body *)

Section Pass.
Context {Model : Type} `{!Pyomo Model} `{!Numerics}.
Implicit Types (c : frame) (l : locals) (m : Model) (tr evs : list event).

(** The value the pass tries: [pardr] after [pstep] has been advanced. *)
Definition trial c l : float := f_popt c + (pstep l + stepfrac l * f_popt c).

Definition iname c l : string := key (f_pname c) (f_dr c) (i l).
Definition prname c l : string := key (f_pname c) (f_dr c) (i l - 1).

(** The dictionaries once the pass has recorded the parameter value [v]
  and the objective value [o] it read from the solved model. *)
Definition recorded_var c l (v : float) : gmap string float :=
<[iname c l := v]> (_var_dict l).
Definition recorded_obj c l (o : float) : gmap string float :=
<[iname c l := o]> (_obj_dict l).

(** The pass gets through the readings of its [try]: the value is
  accepted, the solver succeeds and leaves [m'], and the objective [o]
  and the parameter [v] are read from [m']. *)
Definition solved c l m m' (o v : float) : Prop :=
∃ m1, set_value (f_pname c) (trial c l) m = (m1, None)
      ∧ solve m1 = Solved m'
      ∧ obj_value m' = Some o
      ∧ var_value (f_pname c) m' = Some v.

(** The pass ends in the [except] block before anything is recorded:
  the solver call fails ([ok = false]), or it succeeds and one of the
  two readings raises. *)
Definition caught c l m m' (ok : bool) : Prop :=
∃ m1, set_value (f_pname c) (trial c l) m = (m1, None)
      ∧ ((ok = false ∧ solve m1 = SolveFailed m')
         ∨ (ok = true ∧ solve m1 = Solved m'
            ∧ (obj_value m' = None ∨ var_value (f_pname c) m' = None))).

(** The pass that goes on to the next one. *)
Lemma iteration_next c l m l' m' evs :
iteration c l m = (Next l', m', evs) →
∃ o v d,
  solved c l m m' o v
  ∧ progress (recorded_obj c l o) (f_pname c) (f_dr c) (i l)
      (error_statistic o (f_obj_CI c)) (stepfrac l) = Some d
  ∧ (f_etol c <? error_statistic o (f_obj_CI c)) = false
  ∧ (i l =? f_ctol c - 1)%Z = false
  ∧ crosses (f_dr c)
      (nextdr l + f_popt c * adapt d (stepfrac l) (f_def_SF c)) (f_bound c) = false
  ∧ l' = Locals (i l + 1) (error_statistic o (f_obj_CI c))
           (pstep l + stepfrac l * f_popt c) (trial c l)
           (nextdr l + f_popt c * adapt d (stepfrac l) (f_def_SF c)) false
           (adapt d (stepfrac l) (f_def_SF c))
           (states_dict l) (recorded_var c l v) (recorded_obj c l o)
  ∧ evs = Solve true
          :: pprint (f_pname c) (i l) (error_statistic o (f_obj_CI c))
               (trial c l) (adapt d (stepfrac l) (f_def_SF c) * f_popt c).
Proof.
unfold iteration, handler, solved, trial, recorded_var, recorded_obj, iname. intros Hit.
split_matches Hit; simplify_eq. eexists _, _, _. split; [by eexists|].
repeat split; try done.
Qed.

(** The ways a pass ends the function. *)
Inductive last_pass c l m : result (option step_value) → Model → list event → Prop :=
| pass_rejected m' e :
    set_value (f_pname c) (trial c l) m = (m', Some e) →
    last_pass c l m (Raised e) m' []
| pass_failed_first m' ok :
    caught c l m m' ok →
    _var_dict l !! prname c l = None →
    last_pass c l m (Raised (KeyError (prname c l))) m' [Solve ok; Print ExnLine]
| pass_failed m' ok v :
    caught c l m m' ok →
    _var_dict l !! prname c l = Some v →
    last_pass c l m
      (Returned (Some (v, delete (iname c l) (states_dict l),
                       delete (iname c l) (_var_dict l),
                       delete (iname c l) (_obj_dict l))))
      m'
      [Solve ok; Print ExnLine; Print (Text "Error occured!");
       Print (SetLine (dB (f_dr c)) v)]
| pass_lookup_failed m' o v r evs :
    solved c l m m' o v →
    progress (recorded_obj c l o) (f_pname c) (f_dr c) (i l)
      (error_statistic o (f_obj_CI c)) (stepfrac l) = None →
    last_pass c l m r m' (Solve true :: evs)
| pass_converged m' o v d :
    solved c l m m' o v →
    progress (recorded_obj c l o) (f_pname c) (f_dr c) (i l)
      (error_statistic o (f_obj_CI c)) (stepfrac l) = Some d →
    (f_etol c <? error_statistic o (f_obj_CI c)) = true →
    last_pass c l m
      (Returned (Some (trial c l, states_dict l, recorded_var c l v,
                       recorded_obj c l o)))
      m'
      (Solve true
       :: pprint (f_pname c) (i l) (error_statistic o (f_obj_CI c))
            (trial c l) (adapt d (stepfrac l) (f_def_SF c) * f_popt c)
       ++ [Print (Text ("Reached " +:+ drer (f_dr c) +:+ " CI!"));
           Print (ValueLine (dB (f_dr c)) (trial c l))])
| pass_budget m' o v d :
    solved c l m m' o v →
    progress (recorded_obj c l o) (f_pname c) (f_dr c) (i l)
      (error_statistic o (f_obj_CI c)) (stepfrac l) = Some d →
    (f_etol c <? error_statistic o (f_obj_CI c)) = false →
    (i l =? f_ctol c - 1)%Z = true →
    last_pass c l m
      (Returned (Some ((if is_up (f_dr c) then infinity else neg_infinity),
                       states_dict l, recorded_var c l v, recorded_obj c l o)))
      m'
      (Solve true
       :: pprint (f_pname c) (i l) (error_statistic o (f_obj_CI c))
            (trial c l) (adapt d (stepfrac l) (f_def_SF c) * f_popt c)
       ++ [Print (Text "Maximum steps taken!")])
| pass_bound m' o v d :
    solved c l m m' o v →
    progress (recorded_obj c l o) (f_pname c) (f_dr c) (i l)
      (error_statistic o (f_obj_CI c)) (stepfrac l) = Some d →
    (f_etol c <? error_statistic o (f_obj_CI c)) = false →
    (i l =? f_ctol c - 1)%Z = false →
    crosses (f_dr c)
      (nextdr l + f_popt c * adapt d (stepfrac l) (f_def_SF c)) (f_bound c) = true →
    last_pass c l m
      (Returned (Some (trial c l, states_dict l, recorded_var c l v,
                       recorded_obj c l o)))
      m'
      (Solve true
       :: pprint (f_pname c) (i l) (error_statistic o (f_obj_CI c))
            (trial c l) (adapt d (stepfrac l) (f_def_SF c) * f_popt c)
       ++ [Print (Text ("Reached parameter " +:+ drer (f_dr c) +:+ " bound!"));
           Print (ValueLine (dB (f_dr c)) (trial c l))]).

Lemma iteration_done c l m r m' evs :
iteration c l m = (Done r, m', evs) → last_pass c l m r m' evs.
Proof.
unfold iteration, handler. intros Hit.
destruct (set_value _ _ _) as [m0 [e|]] eqn:Hset.
{ simplify_eq. by apply pass_rejected. }
destruct (solve _) as [m1|m1] eqn:Hs.
- destruct (obj_value m1) as [o|] eqn:Ho.
  + destruct (var_value _ m1) as [v|] eqn:Hv.
    * assert (solved c l m m1 o v) as Hsolved by (by exists m0).
      destruct (progress _ _ _ _ _ _) as [d|] eqn:Hp.
      -- destruct (f_etol c <? _) eqn:He; [simplify_eq; by eapply pass_converged|].
         destruct (i l =? _)%Z eqn:Hi; [simplify_eq; by eapply pass_budget|].
         destruct (crosses _ _ _) eqn:Hx; [|done].
         simplify_eq. by eapply pass_bound.
      -- split_matches Hit; simplify_eq; by eapply pass_lookup_failed.
    * assert (caught c l m m1 true) as Hcaught.
      { exists m0. split; [done|]. right. split; [done|]. split; [done|]. by right. }
      split_matches Hit; simplify_eq; [by eapply pass_failed|by eapply pass_failed_first].
  + assert (caught c l m m1 true) as Hcaught.
    { exists m0. split; [done|]. right. split; [done|]. split; [done|]. by left. }
    split_matches Hit; simplify_eq; [by eapply pass_failed|by eapply pass_failed_first].
- assert (caught c l m m1 false) as Hcaught.
  { exists m0. split; [done|]. left. by split. }
  split_matches Hit; simplify_eq; [by eapply pass_failed|by eapply pass_failed_first].
Qed.

End Pass.
(** ** What holds between two passes *)

Section Invariant.
Context {Model : Type} `{!Pyomo Model} `{!Numerics}.
Implicit Types (c : frame) (l : locals) (m : Model) (tr evs : list event).

(** Before pass number [i]: the solver has been called [i] times and
  has succeeded each time, [i] rows have been printed, a pass after
  the first is within the budget, the dictionaries hold the keys of
  the passes [0 .. i-1] and nothing else, and every printed row shows
  the error statistic of the objective recorded for its pass. *)
Record inv c l tr : Prop := {
inv_i : (0 ≤ i l)%Z;
inv_budget : i l = 0%Z ∨ (i l < f_ctol c)%Z;
inv_log : solve_log tr = replicate (Z.to_nat (i l)) true;
inv_count : rows tr = Z.to_nat (i l);
inv_states : states_dict l = ∅;
inv_var : ∀ k, is_Some (_var_dict l !! k)
               ↔ ∃ j, (0 ≤ j < i l)%Z ∧ k = key (f_pname c) (f_dr c) j;
inv_obj : ∀ k, is_Some (_obj_dict l !! k)
               ↔ ∃ j, (0 ≤ j < i l)%Z ∧ k = key (f_pname c) (f_dr c) j;
inv_rows : ∀ j e pv st pn,
    Print (IterRow j e pv st pn) ∈ tr →
    pn = f_pname c ∧ (0 ≤ j < i l)%Z
    ∧ ∃ o, _obj_dict l !! key (f_pname c) (f_dr c) j = Some o
           ∧ e = error_statistic o (f_obj_CI c)
}.

Lemma inv_init c : inv c (init_locals c) [].
Proof.
split; cbn; try done.
- by left.
- intros k. rewrite lookup_empty. split; [by intros []|intros (j & ? & _); lia].
- intros k. rewrite lookup_empty. split; [by intros []|intros (j & ? & _); lia].
- intros * Hin. by apply elem_of_nil in Hin.
Qed.

Lemma keys_insert c l (d : gmap string float) x :
(0 ≤ i l)%Z →
(∀ k, is_Some (d !! k) ↔ ∃ j, (0 ≤ j < i l)%Z ∧ k = key (f_pname c) (f_dr c) j) →
∀ k, is_Some (<[iname c l := x]> d !! k)
     ↔ ∃ j, (0 ≤ j < i l + 1)%Z ∧ k = key (f_pname c) (f_dr c) j.
Proof.
intros Hi Hd k. unfold iname. destruct (decide (k = key (f_pname c) (f_dr c) (i l))) as [->|Hne].
- rewrite lookup_insert_eq. split; [|by eauto]. intros _. exists (i l). split; [lia|done].
- rewrite lookup_insert_ne by done. rewrite Hd. split; intros (j & Hj & ->).
  + exists j. split; [lia|done].
  + exists j. split; [|done]. destruct (decide (j = i l)) as [->|]; [done|lia].
Qed.

Lemma inv_pass c l m tr l' m' evs :
inv c l tr → loop_cond c l = true →
iteration c l m = (Next l', m', evs) → inv c l' (tr ++ evs).
Proof.
intros [Hi Hb Hlog Hcnt Hst Hvar Hobj Hrows] Hc Hit.
apply iteration_next in Hit as (o & v & d & Hs & Hp & He & Hn & Hx & -> & ->).
unfold loop_cond in Hc. apply andb_prop in Hc as [Hc _].
apply andb_prop in Hc as [Hc _].
split; cbn [i states_dict _var_dict _obj_dict].
- lia.
- right. lia.
- rewrite solve_log_app, Hlog. cbn. rewrite solve_log_pprint.
  replace (Z.to_nat (i l + 1)) with (S (Z.to_nat (i l))) by lia.
  by rewrite replicate_S_end.
- rewrite rows_app, Hcnt. change (rows (Solve true :: ?x)) with (rows x).
  rewrite rows_pprint. lia.
- done.
- by apply keys_insert.
- by apply keys_insert.
- intros j e pv st pn Hin. apply elem_of_app in Hin as [Hin|Hin].
  + destruct (Hrows _ _ _ _ _ Hin) as (-> & Hj & o' & Ho & ->).
    split; [done|]. split; [lia|]. exists o'. split; [|done].
    unfold recorded_obj, iname. rewrite lookup_insert_ne; [done|].
    apply key_neq. lia.
  + apply elem_of_cons in Hin as [Hin|Hin]; [done|].
    apply elem_of_pprint in Hin as [Hin|Hin]; simplify_eq.
    split; [done|]. split; [lia|]. eexists. split; [|done].
    unfold recorded_obj, iname. by rewrite lookup_insert_eq.
Qed.

Lemma reach_inv c m0 l m tr : reach c (init_locals c) m0 l m tr → inv c l tr.
Proof.
induction 1 as [|l m tr l' m' evs _ IH Hc Hit]; [apply inv_init|].
by eapply inv_pass.
Qed.

(** The lookups of the step-size adaptation never fail. *)
Lemma progress_defined c l tr (o : float) e sf :
inv c l tr →
is_Some (progress (recorded_obj c l o) (f_pname c) (f_dr c) (i l) e sf).
Proof.
intros Hinv. unfold progress, recorded_obj, iname.
destruct (0 <? i l)%Z eqn:Hpos; [|by eauto].
rewrite lookup_insert_ne by (apply key_neq; lia).
rewrite lookup_insert_eq.
destruct (proj2 (inv_obj _ _ _ Hinv (key (f_pname c) (f_dr c) (i l - 1)))) as [o' ->];
  [|by eauto].
exists (i l - 1)%Z. split; [lia|done].
Qed.

(** The previous pass has left its record, unless the pass is the
  first. *)
Lemma previous_record c l tr :
inv c l tr →
(i l = 0%Z ∧ _var_dict l !! prname c l = None)
∨ ((0 < i l)%Z ∧ is_Some (_var_dict l !! prname c l)).
Proof.
intros Hinv. pose proof (inv_i _ _ _ Hinv) as Hi.
destruct (decide (i l = 0%Z)) as [H0|Hne].
- left. split; [done|]. apply eq_None_not_Some. intros Hsome.
  apply (inv_var _ _ _ Hinv) in Hsome as (j & Hj & Hk).
  apply key_inj in Hk. lia.
- right. split; [lia|]. apply (inv_var _ _ _ Hinv).
  exists (i l - 1)%Z. split; [lia|done].
Qed.

End Invariant.
(** ** Runs of [step_CI] *)

Section Runs.
Context {Model : Type} `{!Pyomo Model} `{!Numerics}.
Implicit Types (c : frame) (l : locals) (m : Model) (tr evs : list event).

Lemma make_frame_spec self pname dr sf c :
make_frame self pname dr sf = Returned c →
∃ bds alpha,
  pbounds self !! pname = Some bds
  ∧ get_ctol self = Returned (f_ctol c)
  ∧ get_alpha self = Returned alpha
  ∧ popt self !! pname = Some (f_popt c)
  ∧ c = Frame pname dr (f_popt c) (target_bound dr bds)
          (signed_stepfrac dr sf) (f_ctol c) (chi2_isf alpha 1) (obj self).
Proof.
unfold make_frame. intros Hf.
destruct (pbounds self !! pname) as [bds|]; [|done].
destruct (get_ctol self) as [n| |]; [|done..].
destruct (get_alpha self) as [a| |]; [|done..].
destruct (popt self !! pname) as [p|]; [|done].
simplify_eq. by exists bds, a.
Qed.

(** A run either stops while it sets up its frame, or is a run of the
  loop. *)
Lemma step_CI_cases self pname dr sf m r m' tr :
step_CI self pname dr sf m = (r, m', tr) →
((r = Unmodelled ∨ ∃ e, r = Raised e ∧ make_frame self pname dr sf = Raised e)
 ∧ (∀ c, make_frame self pname dr sf ≠ Returned c) ∧ m' = m ∧ tr = [])
∨ (∃ c lf mf trf evs,
     make_frame self pname dr sf = Returned c
     ∧ reach c (init_locals c) m lf mf trf
     ∧ leaves c lf mf r m' evs
     ∧ tr = trf ++ evs).
Proof.
intros Hs. destruct (make_frame self pname dr sf) as [c|e|] eqn:Hf.
- right. destruct (step_CI_run _ _ _ _ _ _ _ _ _ Hf Hs) as (lf & mf & trf & evs & ?).
  by exists c, lf, mf, trf, evs.
- left. unfold step_CI in Hs. rewrite Hf in Hs. simplify_eq.
  split; [right; by exists e|done].
- left. unfold step_CI in Hs. rewrite Hf in Hs. simplify_eq.
  split; [by left|done].
Qed.

(** The pass that ends the function: it is refused its value before
  any solver call, or it ends in the [except] block after a solver
  call, or it has recorded and printed its iteration. *)
Lemma last_pass_log c l m tr r m' evs :
inv c l tr → last_pass c l m r m' evs →
(evs = [] ∧ ∃ e, r = Raised e ∧ set_value (f_pname c) (trial c l) m = (m', Some e))
∨ (∃ ok, solve_log evs = [ok] ∧ rows evs = 0%nat ∧ caught c l m m' ok
     ∧ ((i l = 0%Z ∧ r = Raised (KeyError (prname c l))
         ∧ evs = [Solve ok; Print ExnLine])
        ∨ (∃ v, (0 < i l)%Z ∧ _var_dict l !! prname c l = Some v
                ∧ r = Returned (Some (v, delete (iname c l) (states_dict l),
                                      delete (iname c l) (_var_dict l),
                                      delete (iname c l) (_obj_dict l))))))
∨ (solve_log evs = [true] ∧ rows evs = 1%nat
   ∧ ∃ o v d w,
       r = Returned (Some (w, states_dict l, recorded_var c l v, recorded_obj c l o))
       ∧ solved c l m m' o v
       ∧ progress (recorded_obj c l o) (f_pname c) (f_dr c) (i l)
           (error_statistic o (f_obj_CI c)) (stepfrac l) = Some d).
Proof.
intros Hinv Hl. destruct Hl as [m' e Hset|m' ok Hc Hv|m' ok v Hc Hv|m' o v r evs Hs Hp
                               |m' o v d Hs Hp He|m' o v d Hs Hp He Hlast
                               |m' o v d Hs Hp He Hlast Hx].
- left. split; [done|]. by exists e.
- right. left. exists ok. split; [done|]. split; [done|]. split; [done|]. left.
  destruct (previous_record _ _ _ Hinv) as [[H0 _]|[_ [? Hsome]]]; [done|congruence].
- right. left. exists ok. split; [done|]. split; [done|]. split; [done|]. right.
  exists v. split; [|done].
  destruct (previous_record _ _ _ Hinv) as [[_ Hnone]|[Hpos _]]; [congruence|done].
- destruct (progress_defined c l tr o (error_statistic o (f_obj_CI c))
              (stepfrac l) Hinv) as [d Hd]. congruence.
- right. right. split; [cbn; by rewrite solve_log_app, solve_log_pprint|].
  split; [|by eauto 10].
  change (rows (Solve true :: ?x)) with (rows x). by rewrite rows_app, rows_pprint.
- right. right. split; [cbn; by rewrite solve_log_app, solve_log_pprint|].
  split; [|by eauto 10].
  change (rows (Solve true :: ?x)) with (rows x). by rewrite rows_app, rows_pprint.
- right. right. split; [cbn; by rewrite solve_log_app, solve_log_pprint|].
  split; [|by eauto 10].
  change (rows (Solve true :: ?x)) with (rows x). by rewrite rows_app, rows_pprint.
Qed.

(** The solver calls of the way the loop is left: none, or one. *)
Lemma leaves_log c l m tr r m' evs :
inv c l tr → leaves c l m r m' evs →
solve_log evs = [] ∨ solve_log evs = [false] ∨ solve_log evs = [true].
Proof.
intros Hinv [(_ & _ & _ & ->)|[_ Hit]]; [by left|].
apply iteration_done in Hit.
destruct (last_pass_log _ _ _ _ _ _ _ Hinv Hit)
  as [[-> _]|[([|] & -> & _)|[-> _]]]; auto.
Qed.

End Runs.

(** ** Solver failure *)

Section Failure.
Context {Model : Type} `{!Pyomo Model} `{!Numerics}.
Implicit Types (c : frame) (l : locals) (m : Model) (tr evs : list event).

(** A failed solver call is the last one of its run, and the pass it
  belongs to is the one the locals are at. *)
Lemma failure_position c l m tr r m' evs (k : nat) :
inv c l tr → leaves c l m r m' evs →
solve_log (tr ++ evs) !! k = Some false →
i l = Z.of_nat k ∧ solve_log (tr ++ evs) = replicate k true ++ [false]
∧ solve_log evs = [false]
∧ loop_cond c l = true ∧ iteration c l m = (Done r, m', evs).
Proof.
intros Hinv Hl Hk. rewrite solve_log_app, (inv_log _ _ _ Hinv) in Hk |- *.
pose proof (inv_i _ _ _ Hinv) as Hi.
assert (solve_log evs = [false] ∧ k = Z.to_nat (i l)) as [Hev ->].
{ destruct (decide (k < Z.to_nat (i l))%nat) as [Hlt|Hge].
  - rewrite lookup_app_l in Hk by (by rewrite length_replicate).
    apply lookup_replicate in Hk as [? _]. done.
  - rewrite lookup_app_r in Hk by (rewrite length_replicate; lia).
    rewrite length_replicate in Hk.
    destruct (leaves_log _ _ _ _ _ _ _ Hinv Hl) as [Hev|[Hev|Hev]];
      rewrite Hev in Hk.
    + done.
    + apply list_lookup_singleton_Some in Hk as [? _]. split; [done|lia].
    + by apply list_lookup_singleton_Some in Hk as [_ ?]. }
rewrite Hev. split; [lia|]. split; [done|]. split; [done|].
destruct Hl as [(_ & _ & _ & ->)|?]; [done|done].
Qed.

(** C8. If the solver fails in the first pass of a run (iteration 0),
  the [except] block looks up the record of iteration [-1], which
  does not exist, and [step_CI] raises that [KeyError] instead of
  returning a rolled-back result. *)
Theorem C8_failure_at_iteration_0_raises self pname dr sf m r m' tr :
step_CI self pname dr sf m = (r, m', tr) →
solve_log tr !! 0%nat = Some false →
r = Raised (KeyError (key pname dr (-1))) ∧ tr = [Solve false; Print ExnLine].
Proof.
intros Hs H0.
destruct (step_CI_cases _ _ _ _ _ _ _ _ Hs)
  as [(_ & _ & _ & ->)|(c & lf & mf & trf & evs & Hf & Hr & Hl & ->)]; [done|].
pose proof (reach_inv _ _ _ _ _ Hr) as Hinv.
destruct (failure_position _ _ _ _ _ _ _ _ Hinv Hl H0) as (Hi & Hlog & Hev & _ & Hit).
apply make_frame_spec in Hf as (bds & alpha & _ & _ & _ & _ & Hc).
assert (trf = []) as ->.
{ inversion Hr as [|l1 m1 tr1 l2 m2 evs2 Hr1 _ Hn]; [done|subst].
  apply iteration_next_i in Hn. pose proof (inv_i _ _ _ (reach_inv _ _ _ _ _ Hr1)). lia. }
apply iteration_done in Hit.
destruct (last_pass_log _ _ _ _ _ _ _ Hinv Hit)
  as [[-> _]|[(ok & Hok & _ & _ & Hcase)|[Hev' _]]].
- done.
- destruct Hcase as [(_ & -> & ->)|(v & Hpos & _)]; [|lia].
  cbn in Hev. injection Hev as ->.
  unfold prname. rewrite Hi, Hc. done.
- congruence.
Qed.

(** C1. If the solver succeeds in the passes [0 .. k-1] and fails in
  pass [k > 0], [step_CI] returns the parameter value recorded at
  iteration [k-1], the returned dictionaries have no entry for
  iteration [k], and the failed call was the last one of the run: it
  is not retried. *)
Theorem C1_failure_rolls_back self pname dr sf m r m' tr (k : nat) :
step_CI self pname dr sf m = (r, m', tr) →
(0 < k)%nat →
take (S k) (solve_log tr) = replicate k true ++ [false] →
∃ v sd vd od,
  r = Returned (Some (v, sd, vd, od))
  ∧ vd !! key pname dr (Z.of_nat k - 1) = Some v
  ∧ sd !! key pname dr (Z.of_nat k) = None
  ∧ vd !! key pname dr (Z.of_nat k) = None
  ∧ od !! key pname dr (Z.of_nat k) = None
  ∧ solve_log tr = replicate k true ++ [false].
Proof.
intros Hs Hk Htake.
assert (solve_log tr !! k = Some false) as Hfail.
{ rewrite <- (lookup_take_lt _ (S k)) by lia. rewrite Htake.
  rewrite lookup_app_r by (by rewrite length_replicate).
  by rewrite length_replicate, Nat.sub_diag. }
destruct (step_CI_cases _ _ _ _ _ _ _ _ Hs)
  as [(_ & _ & _ & ->)|(c & lf & mf & trf & evs & Hf & Hr & Hl & ->)]; [done|].
pose proof (reach_inv _ _ _ _ _ Hr) as Hinv.
destruct (failure_position _ _ _ _ _ _ _ _ Hinv Hl Hfail) as (Hi & Hlog & Hev & _ & Hit).
apply make_frame_spec in Hf as (bds & alpha & _ & _ & _ & _ & Hc).
assert (f_pname c = pname ∧ f_dr c = dr) as [Hp Hd] by (by rewrite Hc).
apply iteration_done in Hit.
destruct (last_pass_log _ _ _ _ _ _ _ Hinv Hit)
  as [[-> _]|[(ok & Hok & _ & _ & Hcase)|[Hev' _]]].
- done.
- destruct Hcase as [(H0 & _)|(v & _ & Hv & ->)]; [lia|].
  exists v, (delete (iname c lf) (states_dict lf)),
    (delete (iname c lf) (_var_dict lf)), (delete (iname c lf) (_obj_dict lf)).
  unfold iname, prname in *. rewrite Hp, Hd, Hi in *.
  split; [done|]. split.
  { rewrite lookup_delete_ne by (apply key_neq; lia). done. }
  by rewrite !lookup_delete_eq.
- congruence.
Qed.

End Failure.
(** ** The step budget *)

Section Budget.
Context {Model : Type} `{!Pyomo Model} `{!Numerics}.
Implicit Types (c : frame) (l : locals) (m : Model) (tr evs : list event).

(** What [step_CI] reads from a session that [get_CI] has configured. *)
Lemma make_frame_configured self maxSteps alpha pname dr sf c :
make_frame (configured self maxSteps alpha) pname dr sf = Returned c →
f_ctol c = maxSteps ∧ f_etol c = chi2_isf alpha 1
∧ f_pname c = pname ∧ f_dr c = dr ∧ f_obj_CI c = obj self.
Proof.
intros Hf. apply make_frame_spec in Hf as (bds & a & _ & Hct & Hal & _ & Hc).
unfold get_ctol, get_alpha, configured in Hct, Hal. cbn in Hct, Hal.
rewrite lookup_insert_ne, lookup_insert_eq in Hct by done.
rewrite lookup_insert_eq in Hal. simplify_eq.
split_and!; try done; by rewrite Hc.
Qed.

Lemma loop_cond_budget c l : loop_cond c l = true → (i l < f_ctol c)%Z.
Proof.
unfold loop_cond. intros Hc. apply andb_prop in Hc as [Hc _].
apply andb_prop in Hc as [Hc _]. lia.
Qed.

Lemma rows_below_row etol tr j e pv st pn :
rows_below etol tr = true → Print (IterRow j e pv st pn) ∈ tr → (etol <? e) = false.
Proof.
unfold rows_below. rewrite forallb_forall. intros Hall Hin.
apply list_elem_of_In, Hall in Hin. by apply negb_true_iff in Hin.
Qed.

Lemma uncaught_line tr : uncaught tr = true → Print ExnLine ∉ tr.
Proof.
unfold uncaught. rewrite forallb_forall. intros Hall Hin.
apply list_elem_of_In, Hall in Hin. done.
Qed.

(** C2 (as the code has it).  With [max_steps = N >= 1], a run of
  [step_CI] calls the solver at most [N] times; and if [N] calls
  succeed, none of their passes ends in the [except] block (the
  objective and the parameter are read from the solved model each
  time) and no printed error statistic exceeds the threshold, the run
  returns [+inf] when stepping up and [-inf] when stepping down.  (In
  the last allowed pass the budget is tested before the bound, and a
  bound crossed earlier ends the run before the [N]th call, so nothing
  needs to be assumed about the bound.) *)
Theorem C2_budget self (N : Z) alpha pname dr sf m r m' tr :
(1 ≤ N)%Z →
step_CI (configured self N alpha) pname dr sf m = (r, m', tr) →
(solves tr ≤ Z.to_nat N)%nat
∧ (solve_log tr = replicate (Z.to_nat N) true →
   uncaught tr = true →
   rows_below (chi2_isf alpha 1) tr = true →
   ∃ sd vd od,
     r = Returned (Some ((if is_up dr then infinity else neg_infinity), sd, vd, od))).
Proof.
intros HN Hs.
destruct (step_CI_cases _ _ _ _ _ _ _ _ Hs)
  as [(_ & _ & _ & ->)|(c & lf & mf & trf & evs & Hf & Hr & Hl & ->)].
{ split; [cbn; lia|]. intros Hlog. destruct (Z.to_nat N) eqn:?; [lia|done]. }
pose proof (reach_inv _ _ _ _ _ Hr) as Hinv.
apply make_frame_configured in Hf as (Hct & Het & Hp & Hd & _).
pose proof (inv_i _ _ _ Hinv) as Hi. pose proof (inv_budget _ _ _ Hinv) as Hb.
rewrite solves_log, !solve_log_app, length_app, !(inv_log _ _ _ Hinv), length_replicate.
assert (∀ evs', solve_log evs' = [] →
                replicate (Z.to_nat (i lf)) true ++ solve_log evs'
                = replicate (Z.to_nat N) true → False) as Hshort.
{ intros evs' -> Hlog. apply (f_equal length) in Hlog.
  rewrite length_app, !length_replicate in Hlog. cbn in Hlog.
  destruct Hl as [(Hc & _)|[Hc _]].
  - lia.
  - apply loop_cond_budget in Hc. lia. }
destruct Hl as [(Hc & -> & -> & ->)|[Hc Hit]].
- split; [cbn; lia|]. intros Hlog _ _. by destruct (Hshort [] eq_refl Hlog).
- apply loop_cond_budget in Hc. apply iteration_done in Hit.
  split.
  { destruct (last_pass_log _ _ _ _ _ _ _ Hinv Hit)
      as [[-> _]|[(ok & -> & _)|[-> _]]]; cbn; lia. }
  intros Hlog Hun Hrows.
  destruct Hit as [m1 e Hset|m1 ok Hca Hv|m1 ok v Hca Hv|m1 o v r1 evs1 Hs1 Hpr
                  |m1 o v d Hs1 Hpr He|m1 o v d Hs1 Hpr He Hlast
                  |m1 o v d Hs1 Hpr He Hlast Hx].
  + by destruct (Hshort [] eq_refl Hlog).
  + apply uncaught_line in Hun. destruct Hun.
    apply elem_of_app. right. apply elem_of_cons. right. by apply elem_of_cons; left.
  + apply uncaught_line in Hun. destruct Hun.
    apply elem_of_app. right. apply elem_of_cons. right. by apply elem_of_cons; left.
  + destruct (progress_defined c lf trf o
                (error_statistic o (f_obj_CI c)) (stepfrac lf) Hinv)
      as [d Hd']. congruence.
  + rewrite Het, (rows_below_row _ _ (i lf) _ (trial c lf)
                    (adapt d (stepfrac lf) (f_def_SF c) * f_popt c) (f_pname c) Hrows)
      in He; [done|].
    apply elem_of_app. right. apply elem_of_cons. right.
    apply elem_of_app. left. apply row_in_pprint.
  + rewrite Hd. by eauto.
  + apply (f_equal length) in Hlog. cbn in Hlog.
    rewrite solve_log_app, solve_log_pprint in Hlog. cbn in Hlog.
    rewrite length_app, !length_replicate in Hlog. cbn in Hlog. lia.
Qed.

End Budget.

(** ** The error statistic and its threshold *)

(** Membership in an explicit list of events, case by case. *)
Ltac in_events H :=
  repeat match type of H with
         | _ ∈ _ ++ _ => apply elem_of_app in H as [H|H]
         | _ ∈ _ :: _ => apply elem_of_cons in H as [H|H]
         | _ ∈ [] => by apply elem_of_nil in H
         | _ ∈ pprint _ _ _ _ _ => apply elem_of_pprint in H as [H|H]
         end.

Section Statistic.
Context {Model : Type} `{!Pyomo Model} `{!Numerics}.
Implicit Types (c : frame) (l : locals) (m : Model) (tr evs : list event).

(** The line that announces convergence. *)
Definition converged_line (dr : string) : event :=
Print (Text ("Reached " +:+ drer dr +:+ " CI!")).

Lemma reach_rows_below c m0 l m tr j e pv st pn :
reach c (init_locals c) m0 l m tr →
Print (IterRow j e pv st pn) ∈ tr → (f_etol c <? e) = false.
Proof.
induction 1 as [|l m tr l' m' evs _ IH Hc Hit]; [by intros ?%elem_of_nil|].
intros [Hin|Hin]%elem_of_app; [by apply IH|].
apply iteration_next in Hit as (o & v & d & _ & _ & He & _ & _ & _ & ->).
in_events Hin; by simplify_eq.
Qed.

Lemma reach_no_text c m0 l m tr s :
reach c (init_locals c) m0 l m tr → Print (Text s) ∉ tr.
Proof.
induction 1 as [|l m tr l' m' evs _ IH Hc Hit]; [by intros ?%elem_of_nil|].
intros [Hin|Hin]%elem_of_app; [by apply IH|].
apply iteration_next in Hit as (o & v & d & _ & _ & He & _ & _ & _ & ->).
in_events Hin; by simplify_eq.
Qed.

(** No pass between two others ends in the [except] block. *)
Lemma reach_uncaught c m0 l m tr :
reach c (init_locals c) m0 l m tr → Print ExnLine ∉ tr.
Proof.
induction 1 as [|l m tr l' m' evs _ IH Hc Hit]; [by intros ?%elem_of_nil|].
intros [Hin|Hin]%elem_of_app; [by apply IH|].
apply iteration_next in Hit as (o & v & d & _ & _ & He & _ & _ & _ & ->).
in_events Hin; by simplify_eq.
Qed.

(** C4. In a session configured by [get_CI] with [alpha], take any pass
  of a run of [step_CI] in which the solver succeeds and the objective
  [o] and the parameter are read from the solved model.  The pass
  computes [e = 2 * (ln o - ln obj)] from [o] and the baseline [obj]
  of the session, prints [e] in the row of its iteration and records
  [o] under the iteration's key; [e] is tested against
  [chi2.isf(alpha, 1)], the threshold of every run of the session: the
  pass announces convergence and returns exactly when [e] exceeds it,
  and otherwise [e] is the [err] the loop condition tests next. *)
Theorem C4_error_statistic self N alpha pname dr sf c m0 l m tr m2 o v :
make_frame (configured self N alpha) pname dr sf = Returned c →
reach c (init_locals c) m0 l m tr →
loop_cond c l = true →
solved c l m m2 o v →
f_etol c = chi2_isf alpha 1
∧ ∃ fl st evs,
    iteration c l m
    = (fl, m2,
       Solve true
       :: pprint pname (i l) (2 * (log o - log (obj self))) (trial c l) st ++ evs)
    ∧ match fl with
      | Next l' =>
          (chi2_isf alpha 1 <? 2 * (log o - log (obj self))) = false
          ∧ err l' = 2 * (log o - log (obj self))
          ∧ _obj_dict l' !! key pname dr (i l) = Some o
          ∧ evs = []
      | Done r =>
          (∃ w sd vd od, r = Returned (Some (w, sd, vd, od))
                         ∧ od !! key pname dr (i l) = Some o)
          ∧ ((chi2_isf alpha 1 <? 2 * (log o - log (obj self))) = true
             ↔ converged_line dr ∈ evs)
      end.
Proof.
intros Hf Hr Hc (m1 & Hset & Hsolve & Ho & Hv).
apply make_frame_configured in Hf as (Hct & Het & Hp & Hd & Hobj).
split; [done|].
pose proof (reach_inv _ _ _ _ _ Hr) as Hinv.
destruct (progress_defined c l tr o (error_statistic o (f_obj_CI c)) (stepfrac l) Hinv)
  as [d Hpr].
unfold iteration. fold (trial c l). rewrite Hset, Hsolve, Ho, Hv.
fold (iname c l). fold (recorded_obj c l o). rewrite Hpr.
unfold error_statistic. rewrite Het, Hp, Hd, Hobj.
destruct (chi2_isf alpha 1 <? _) eqn:He.
{ eexists _, _, _. split; [done|]. split.
  - eexists _, _, _, _. split; [done|]. unfold recorded_obj, iname.
    by rewrite Hp, Hd, lookup_insert_eq.
  - split; [|done]. intros _. apply elem_of_cons. by left. }
destruct (i l =? _)%Z.
{ eexists _, _, _. split; [done|]. split.
  - eexists _, _, _, _. split; [done|]. unfold recorded_obj, iname.
    by rewrite Hp, Hd, lookup_insert_eq.
  - split; [done|]. intros Hin. in_events Hin; done. }
destruct (crosses _ _ _).
{ eexists _, _, _. split; [done|]. split.
  - eexists _, _, _, _. split; [done|]. unfold recorded_obj, iname.
    by rewrite Hp, Hd, lookup_insert_eq.
  - split; [done|]. intros Hin. in_events Hin; simplify_eq.
    unfold converged_line, drer in *. by destruct (is_up _). }
eexists _, _, []. rewrite app_nil_r. split; [done|].
split; [done|]. split; [done|]. split; [|done].
cbn. unfold recorded_obj, iname. by rewrite Hp, Hd, lookup_insert_eq.
Qed.

End Statistic.
(** ** The target bound *)

Section Bound.
Context {Model : Type} `{!Pyomo Model} `{!Numerics}.


End Bound.
(** ** Construction *)

Section ConstructionFacts.
Context {Model : Type} `{!Pyomo Model}.

(** C7 (as the code has it).  With [presolve], a [dae] that is truthy
  and not a string makes the constructor raise [TypeError], and a
  string the transformation factory does not know makes it raise
  [AttributeError]; both before the solver is called or the model is
  touched.  A falsy [dae] ([None], [False], zero, empty) counts as
  none; and without [presolve] the [dae] argument is not looked at:
  the constructor does the same whatever it is. *)
Theorem C7_bad_dae_with_presolve pnames solver solver_kwds tee dae dae_kwds (m : Model) :
(truthy dae = true →
 (is_str dae = false →
  init pnames solver solver_kwds tee dae dae_kwds true m = (Raised TypeError, m, []))
 ∧ (∀ s, dae = PyStr s → TransformationFactory ("dae." +:+ s) = None →
    init pnames solver solver_kwds tee dae dae_kwds true m
    = (Raised (AttributeError "apply_to"), m, [])))
∧ (truthy dae = false →
   init pnames solver solver_kwds tee dae dae_kwds true m
   = init pnames solver solver_kwds tee PyNone dae_kwds true m)
∧ (∀ dae',
     init pnames solver solver_kwds tee dae dae_kwds false m
     = init pnames solver solver_kwds tee dae' dae_kwds false m).
Proof.
split; [|split].
- intros Ht. split.
  + intros Hs. unfold init, bind. rewrite Ht. cbn.
    destruct dae; try done.
  + intros s -> Hn. unfold init, bind. rewrite Ht. cbn. by rewrite Hn.
- intros Hf. unfold init. by rewrite Hf.
- intros dae'. unfold init. by rewrite !andb_false_r.
Qed.

End ConstructionFacts.

(** ** Export and import *)

Section ExportFacts.
Context {File : Type} `{!Json File}.

Lemma load_attrs self (sv_dict : gmap string pyval) :
attrs (map_fold (fun att v self => setattr self att v) self sv_dict)
= sv_dict ∪ attrs self.
Proof.
apply (map_fold_weak_ind
         (fun r (d : gmap string pyval) => attrs r = d ∪ attrs self)).
- by rewrite (left_id_L ∅ (∪)).
- intros att v d r Hnone IH. cbn. rewrite IH. by rewrite insert_union_l.
Qed.

(** The attributes [get_CI] leaves on the session. *)
Lemma completed_attrs self N alpha a :
attrs (completed (configured self N alpha) a)
= <["obj_dict" := float_dict (a_obj a)]>
    (<["var_dict" := float_dict (a_var a)]>
       (<["parlb" := float_dict (a_parlb a)]>
          (<["parub" := float_dict (a_parub a)]>
             (<["alpha" := PyFloat alpha]>
                (<["ctol" := PyInt N]> (attrs self)))))).
Proof. done. Qed.

(** The document [to_json] writes for a session on which [get_CI] has
  completed. *)
Definition exported (alpha : float) (a : acc) : gmap string pyval :=
<["obj_dict" := float_dict (a_obj a)]>
  (<["var_dict" := float_dict (a_var a)]>
     (<["parlb" := float_dict (a_parlb a)]>
        (<["parub" := float_dict (a_parub a)]>
           (<["alpha" := PyFloat alpha]> ∅)))).

Lemma collect_completed self N alpha a :
collect (completed (configured self N alpha) a) atts ∅
= Returned (exported alpha a).
Proof.
unfold atts, collect, getattr. rewrite completed_attrs.
repeat (rewrite ?lookup_insert_eq; rewrite ?lookup_insert_ne by done).
done.
Qed.

Section GetCI.
Context {Model : Type} `{!Pyomo Model} `{!Numerics}.

Lemma get_CI_completed self N alpha sf (m : Model) res self' m' tr :
  get_CI self N alpha sf m = (Returned (res, self'), m', tr) →
  ∃ a, self' = completed (configured self N alpha) a
   ∧ res = {[ "Lower Bound" := a_parlb a; "Upper Bound" := a_parub a ]}.
Proof.
  unfold get_CI. intros Hg.
  destruct (profile_all _ _ _ _ _) as [[[a| |] m1] evs]; simplify_eq.
  by exists a.
Qed.

(** The five exported attributes are ordinary names. *)
Lemma exported_unreserved alpha a :
  map_Forall (fun att (_ : pyval) => reserved att = false) (exported alpha a).
Proof.
  unfold exported. repeat (apply map_Forall_insert_2; [reflexivity|]).
  apply map_Forall_empty.
Qed.

(** C6. Provided [json.load] reads back what [json.dump] wrote: on a
session on which [get_CI] has completed, [to_json] succeeds, and
[load_json] from the same path on any other session gives that
session the same [alpha], [parub], [parlb], [var_dict] and
[obj_dict], value for value. *)
Theorem C6_json_round_trip self N alpha sf (m : Model) res self' m' tr
(fresh : PyMPLE) (path : string) (fs : gmap string File) :
  (∀ v, json_load (json_dump v) = Some v) →
  get_CI self N alpha sf m = (Returned (res, self'), m', tr) →
  ∃ fs' fresh' parub parlb var_dict obj_dict,
to_json self' path fs = (Returned tt, fs')
∧ load_json fresh path fs' = Returned fresh'
∧ attrs self' !! "alpha" = Some (PyFloat alpha)
∧ attrs self' !! "parub" = Some parub
∧ attrs self' !! "parlb" = Some parlb
∧ attrs self' !! "var_dict" = Some var_dict
∧ attrs self' !! "obj_dict" = Some obj_dict
∧ attrs fresh' !! "alpha" = Some (PyFloat alpha)
∧ attrs fresh' !! "parub" = Some parub
∧ attrs fresh' !! "parlb" = Some parlb
∧ attrs fresh' !! "var_dict" = Some var_dict
∧ attrs fresh' !! "obj_dict" = Some obj_dict.
Proof.
  intros Hrt Hg. apply get_CI_completed in Hg as (a & -> & _).
  exists (<[path := json_dump (PyDict (exported alpha a))]> fs).
  eexists _, (float_dict (a_parub a)), (float_dict (a_parlb a)),
    (float_dict (a_var a)), (float_dict (a_obj a)).
  split; [unfold to_json; by rewrite collect_completed|].
  split.
  { unfold load_json. rewrite lookup_insert_eq, Hrt.
    by rewrite decide_True by apply exported_unreserved. }
  rewrite load_attrs, completed_attrs. unfold exported.
  repeat (split; [by simplify_map_eq|]);
    repeat (split; [erewrite lookup_union_Some_l; [done|by simplify_map_eq]|]).
  erewrite lookup_union_Some_l; [done|by simplify_map_eq].
Qed.

End GetCI.

End ExportFacts.
(** ** Signs of binary64 values *)

(** The sign bit of a value, [None] for NaN. *)
Definition sgn (x : spec_float) : option bool :=
match x with
| S754_nan => None
| S754_zero s | S754_infinity s | S754_finite s _ _ => Some s
end.

Definition fsign (x : float) : option bool := sgn (Prim2SF x).

(** NaN, or a value whose sign bit is [s]. *)
Definition signed (s : bool) (x : float) : Prop := fsign x = None ∨ fsign x = Some s.

Lemma sgn_round_aux s m e l :
  sgn (binary_round_aux prec emax s m e l) = None
  ∨ sgn (binary_round_aux prec emax s m e l) = Some s.
Proof.
  unfold binary_round_aux.
  destruct (shr_fexp prec emax m e l) as [mrs' e'].
  destruct (shr_fexp prec emax _ e' loc_Exact) as [mrs'' e''].
  destruct (shr_m mrs''); [by right| |by left].
  destruct (_ <=? _)%Z; by right.
Qed.

Lemma sgn_mul x y sx sy :
  sgn x = Some sx → sgn y = Some sy →
  sgn (SF64mul x y) = None ∨ sgn (SF64mul x y) = Some (xorb sx sy).
Proof.
  destruct x, y; cbn; intros; simplify_eq; auto using sgn_round_aux.
Qed.

Lemma sgn_mul_nan x y :
  sgn x = None ∨ sgn y = None → sgn (SF64mul x y) = None.
Proof. destruct x, y; cbn; intros [?|?]; by simplify_eq. Qed.

Lemma sgn_div x y sx sy :
  sgn x = Some sx → sgn y = Some sy →
  sgn (SF64div x y) = None ∨ sgn (SF64div x y) = Some (xorb sx sy).
Proof.
  destruct x as [| | |s1 m1 e1], y as [| | |s2 m2 e2]; cbn; intros; simplify_eq; auto.
  destruct (SFdiv_core_binary _ _ _ _ _ _) as [[mz ez] lz]. apply sgn_round_aux.
Qed.

Lemma sgn_div_nan x y :
  sgn x = None ∨ sgn y = None → sgn (SF64div x y) = None.
Proof. destruct x, y; cbn; intros [?|?]; by simplify_eq. Qed.

Lemma fsign_mul x y sx sy :
  signed sx x → signed sy y → signed (xorb sx sy) (x * y).
Proof.
  unfold signed, fsign. rewrite mul_spec. intros [Hx|Hx] [Hy|Hy];
    try (left; apply sgn_mul_nan; auto; fail).
  by apply sgn_mul.
Qed.

Lemma fsign_div x y sx sy :
  signed sx x → signed sy y → signed (xorb sx sy) (x / y).
Proof.
  unfold signed, fsign. rewrite div_spec. intros [Hx|Hx] [Hy|Hy];
    try (left; apply sgn_div_nan; auto; fail).
  by apply sgn_div.
Qed.

Lemma fsign_abs x : signed false (abs x).
Proof. unfold signed, fsign. rewrite abs_spec. destruct (Prim2SF x); cbn; auto. Qed.

Lemma fsign_opp x s : signed s x → signed (negb s) (- x).
Proof.
  unfold signed, fsign. rewrite opp_spec.
  destruct (Prim2SF x); cbn; intros [?|?]; simplify_eq; auto.
Qed.

(** A value above zero has a clear sign bit. *)
Lemma fsign_pos x : (0 <? x) = true → fsign x = Some false.
Proof.
  rewrite ltb_spec. unfold fsign, SFltb. change (Prim2SF 0) with (S754_zero false).
  destruct (Prim2SF x) as [s|s| |s m e]; cbn; try done; by destruct s.
Qed.

(** NaN aside, a value with its sign bit set is below [0.01]. *)
Lemma signed_below x : signed true x → fsign x = None ∨ (x <=? 0.01) = true.
Proof.
  intros [Hx|Hx]; [by left|right]. rewrite leb_spec. unfold fsign in Hx.
  unfold SFleb.
  replace (Prim2SF 0.01) with (S754_finite false 5764607523034235 (-59)) by (by vm_compute).
  destruct (Prim2SF x) as [s|s| |s m e]; [..|discriminate|];
    cbn in Hx; injection Hx as ->; reflexivity.
Qed.

Lemma not_signed_compare x : fsign x = None → (x <=? 0.01) = false.
Proof.
  rewrite leb_spec. unfold fsign, SFleb. by destruct (Prim2SF x).
Qed.

Lemma fsign_nan x : fsign x = None → x = nan.
Proof.
  unfold fsign. intros Hx. apply Prim2SF_inj.
  destruct (Prim2SF x); by simplify_eq.
Qed.

(** ** Step-size adaptation when stepping down *)

Section Adaptation.
Context {Model : Type} `{!Pyomo Model} `{!Numerics}.
Implicit Types (c : frame) (l : locals) (m : Model) (tr evs : list event).

Lemma adapt_signed s d sf def :
  signed s sf → signed s def → signed s (adapt d sf def).
Proof.
  intros Hsf Hdef. unfold adapt. destruct (d <=? 0.01); [|done].
  change s with (xorb false s). apply fsign_mul; [|done]. by right.
Qed.

(** The step fraction keeps the sign it starts with. *)
Lemma reach_stepfrac_signed s c m0 l m tr :
  signed s (f_def_SF c) →
  reach c (init_locals c) m0 l m tr → signed s (stepfrac l).
Proof.
  intros Hdef. induction 1 as [|l m tr l' m' evs _ IH Hc Hit]; [done|].
  apply iteration_next in Hit as (o & v & d & _ & _ & _ & _ & _ & -> & _).
  cbn. by apply adapt_signed.
Qed.

(** After the first pass, [d] is a quotient of magnitudes by the step
    fraction, so it has the sign of the step fraction or is NaN. *)
Lemma progress_signed s od pname dr (i : Z) e sf d :
  (0 < i)%Z → signed s sf →
  progress od pname dr i e sf = Some d → signed s d.
Proof.
  intros Hi Hsf. unfold progress.
  destruct (0 <? i)%Z eqn:Hpos; [|lia].
  destruct (od !! _) as [oprev|]; [|done]. destruct (od !! _) as [ocur|]; [|done].
  intros [= <-]. change s with (xorb false s).
  apply fsign_div; [apply fsign_abs|].
  change s with (xorb false s). apply fsign_mul; [apply fsign_abs|done].
Qed.

(** C9 (as the code has it).  When stepping down with a step fraction
    above zero, the loop's step fraction has its sign bit set.  So in
    every pass after the first that gets through its readings and in
    which the measure [d] is a number, [d] is at most [0.01] and the
    step fraction is multiplied by [1.05]: the pass prints the step
    size of the grown fraction and hands the grown fraction to the next
    pass; the reset branch is not taken. *)
Theorem C9_downward_step_growth self pname dr sf c m0 l m tr m2 (o v d : float) :
  make_frame self pname dr sf = Returned c →
  is_up dr = false →
  (0 <? sf) = true →
  reach c (init_locals c) m0 l m tr →
  (0 < i l)%Z →
  solved c l m m2 o v →
  progress (recorded_obj c l o) (f_pname c) (f_dr c) (i l)
    (error_statistic o (f_obj_CI c)) (stepfrac l) = Some d →
  (d =? d) = true →
  (d <=? 0.01) = true
  ∧ adapt d (stepfrac l) (f_def_SF c) = 1.05 * stepfrac l
  ∧ ∃ fl evs,
      iteration c l m
      = (fl, m2,
         Solve true
         :: pprint pname (i l) (error_statistic o (f_obj_CI c)) (trial c l)
              (1.05 * stepfrac l * f_popt c) ++ evs)
      ∧ ∀ l', fl = Next l' → stepfrac l' = 1.05 * stepfrac l.
Proof.
  intros Hf Hdown Hsf Hr Hi (m1 & Hset & Hsolve & Ho & Hv) Hd Hnum.
  apply make_frame_spec in Hf as (bds & alpha & _ & _ & _ & _ & Hc).
  assert (f_def_SF c = - sf) as Hdef.
  { rewrite Hc. cbn. unfold signed_stepfrac. by rewrite Hdown. }
  assert (f_pname c = pname) as Hp by (by rewrite Hc).
  assert (signed true (f_def_SF c)) as Hneg.
  { rewrite Hdef. apply (fsign_opp _ false). right. by apply fsign_pos. }
  pose proof (reach_stepfrac_signed _ _ _ _ _ _ Hneg Hr) as Hs.
  pose proof (progress_signed _ _ _ _ _ _ _ _ Hi Hs Hd) as Hds.
  assert ((d <=? 0.01) = true) as Hle.
  { destruct (signed_below _ Hds) as [Hnan|Hle]; [|done].
    apply fsign_nan in Hnan. subst d. by vm_compute in Hnum. }
  assert (adapt d (stepfrac l) (f_def_SF c) = 1.05 * stepfrac l) as Hgrow.
  { unfold adapt. by rewrite Hle. }
  split; [done|]. split; [done|].
  unfold iteration. fold (trial c l). rewrite Hset, Hsolve, Ho, Hv.
  fold (iname c l). fold (recorded_obj c l o). rewrite Hd, Hgrow, Hp.
  destruct (f_etol c <? _); [eexists _, _; split; [done|]; by intros l' ?|].
  destruct (i l =? _)%Z; [eexists _, _; split; [done|]; by intros l' ?|].
  destruct (crosses _ _ _); [eexists _, _; split; [done|]; by intros l' ?|].
  eexists _, []. rewrite app_nil_r. split; [done|]. by intros l' [= <-].
Qed.

End Adaptation.

(** ** What a run of [step_CI] returns *)

Section Returns.
Context {Model : Type} `{!Pyomo Model} `{!Numerics}.
Implicit Types (c : frame) (l : locals) (m : Model) (tr evs : list event).

(** The dictionaries of the pass that ends the function: they hold the
    keys of the passes that printed their row. *)
Lemma last_pass_keys c l m tr v sd vd od m' evs :
  inv c l tr → last_pass c l m (Returned (Some (v, sd, vd, od))) m' evs →
  sd = ∅
  ∧ ∀ k, (is_Some (vd !! k) ↔ is_Some (od !! k))
         ∧ (is_Some (vd !! k)
            ↔ ∃ j, (0 ≤ j < Z.of_nat (rows (tr ++ evs)))%Z
                   ∧ k = key (f_pname c) (f_dr c) j).
Proof.
  intros Hinv Hl.
  pose proof (inv_i _ _ _ Hinv) as Hi.
  rewrite rows_app, (inv_count _ _ _ Hinv).
  destruct (last_pass_log _ _ _ _ _ _ _ Hinv Hl)
    as [[_ (e & ? & _)]|[(ok & _ & -> & _ & Hcase)|(_ & -> & Hcase)]]; [done| |].
  - destruct Hcase as [(_ & ? & _)|(v' & _ & Hv & Hret)]; [done|]. simplify_eq.
    rewrite (inv_states _ _ _ Hinv), delete_empty. split; [done|].
    intros k. rewrite Nat.add_0_r, Z2Nat.id by done.
    destruct (decide (k = iname c l)) as [->|Hne].
    + rewrite !lookup_delete_eq. split; [done|]. split; [by intros []|].
      intros (j & Hj & Hk). apply key_inj in Hk. lia.
    + rewrite !lookup_delete_ne by done.
      rewrite (inv_var _ _ _ Hinv), (inv_obj _ _ _ Hinv).
      split; split; intros (j & Hj & ->); exists j; (split; [lia|done]).
  - destruct Hcase as (o & v' & d & w & Hret & _). simplify_eq.
    split; [by apply (inv_states _ _ _ Hinv)|].
    intros k.
    replace (Z.of_nat (Z.to_nat (i l) + 1)) with (i l + 1)%Z by lia.
    unfold recorded_var, recorded_obj.
    rewrite (keys_insert c l (_var_dict l) _ Hi (inv_var _ _ _ Hinv) k).
    rewrite (keys_insert c l (_obj_dict l) _ Hi (inv_obj _ _ _ Hinv) k).
    split; split; intros (j & Hj & ->); exists j; (split; [lia|done]).
Qed.

Lemma step_CI_keys self pname dr sf m v sd vd od m' tr :
  step_CI self pname dr sf m = (Returned (Some (v, sd, vd, od)), m', tr) →
  sd = ∅
  ∧ ∀ k, (is_Some (vd !! k) ↔ is_Some (od !! k))
         ∧ (is_Some (vd !! k)
            ↔ ∃ j, (0 ≤ j < Z.of_nat (rows tr))%Z ∧ k = key pname dr j).
Proof.
  intros Hs.
  destruct (step_CI_cases _ _ _ _ _ _ _ _ Hs)
    as [([?|(e & ? & _)] & _)|(c & lf & mf & trf & evs & Hf & Hr & Hl & ->)]; [done..|].
  pose proof (reach_inv _ _ _ _ _ Hr) as Hinv.
  apply make_frame_spec in Hf as (bds & alpha & _ & _ & _ & _ & Hc).
  assert (f_pname c = pname ∧ f_dr c = dr) as [<- <-] by (by rewrite Hc).
  destruct Hl as [(_ & ? & _)|[_ Hit]]; [done|].
  apply iteration_done in Hit. by eapply last_pass_keys.
Qed.

(** X1. Whenever [step_CI] returns its tuple, the first dictionary
    ([states_dict]) is empty, and the value and objective dictionaries
    have the same keys: [pname_dr_j] for [j] below the number of rows
    the run has printed, one key for each pass that recorded and printed
    its iteration. *)
Theorem X1_returned_dictionaries self pname dr sf m v sd vd od m' tr :
  step_CI self pname dr sf m = (Returned (Some (v, sd, vd, od)), m', tr) →
  sd = ∅
  ∧ ∀ k, (is_Some (vd !! k) ↔ is_Some (od !! k))
         ∧ (is_Some (vd !! k)
            ↔ ∃ j, (0 ≤ j < Z.of_nat (rows tr))%Z ∧ k = key pname dr j).
Proof. apply step_CI_keys. Qed.

(** What [step_CI] can raise: the exception of its set-up, the
    exception of [set_value], or the [KeyError] of the first pass. *)
Lemma step_CI_raised self pname dr sf m e m' tr :
  step_CI self pname dr sf m = (Raised e, m', tr) →
  (make_frame self pname dr sf = Raised e ∧ m' = m ∧ tr = [])
  ∨ (∃ c, make_frame self pname dr sf = Returned c
          ∧ ((∃ x m0, set_value pname x m0 = (m', Some e)
                      ∧ (Print ExnLine ∉ tr) ∧ ∀ s, Print (Text s) ∉ tr)
             ∨ (e = KeyError (key pname dr (-1))
                ∧ ∃ ok, tr = [Solve ok; Print ExnLine]))).
Proof.
  intros Hs.
  destruct (step_CI_cases _ _ _ _ _ _ _ _ Hs)
    as [([?|(e' & ? & Hf)] & _ & -> & ->)|(c & lf & mf & trf & evs & Hf & Hr & Hl & ->)].
  { done. }
  { left. by simplify_eq. }
  right. exists c. split; [done|].
  pose proof (reach_inv _ _ _ _ _ Hr) as Hinv.
  pose proof (inv_i _ _ _ Hinv) as Hi.
  apply make_frame_spec in Hf as (bds & alpha & _ & _ & _ & _ & Hc).
  assert (f_pname c = pname ∧ f_dr c = dr) as [Hp Hd] by (by rewrite Hc).
  destruct Hl as [(_ & ? & _)|[_ Hit]]; [done|].
  apply iteration_done in Hit.
  destruct (last_pass_log _ _ _ _ _ _ _ Hinv Hit)
    as [[-> (e' & He & Hset)]|[(ok & _ & _ & _ & Hcase)|(_ & _ & Hcase)]].
  - left. injection He as <-. rewrite Hp in Hset. rewrite app_nil_r.
    exists (trial c lf), mf. split; [done|].
    split; [by eapply reach_uncaught|]. intros s. by eapply reach_no_text.
  - right. destruct Hcase as [(H0 & He & ->)|(v & _ & _ & ?)]; [|done].
    injection He as ->. unfold prname. rewrite H0, Hp, Hd. split; [done|].
    exists ok.
    assert (trf = []) as ->; [|done].
    inversion Hr as [|l1 m1 tr1 l2 m2 evs2 Hr1 _ Hn]; [done|subst].
    apply iteration_next_i in Hn. pose proof (inv_i _ _ _ (reach_inv _ _ _ _ _ Hr1)). lia.
  - by destruct Hcase as (? & ? & ? & ? & ? & _).
Qed.

(** X2. What is raised inside the [try] block (by the solver, or by
    reading the objective or the parameter from the solved model) never
    leaves [step_CI] as it is.  After its set-up (the lookups of the
    parameter, of [ctol] and of [alpha]) [step_CI] raises only what
    [set_value] raises, before the [try], or the [KeyError] for the key
    of iteration [-1], which the [except] block raises when it is
    entered in the very first pass: the run is then one solver call and
    the printed exception. *)
Theorem X2_only_exception self pname dr sf m c e m' tr :
  make_frame self pname dr sf = Returned c →
  step_CI self pname dr sf m = (Raised e, m', tr) →
  (∃ x m0, set_value pname x m0 = (m', Some e)
           ∧ (Print ExnLine ∉ tr) ∧ ∀ s, Print (Text s) ∉ tr)
  ∨ (e = KeyError (key pname dr (-1)) ∧ ∃ ok, tr = [Solve ok; Print ExnLine]).
Proof.
  intros Hf Hs.
  destruct (step_CI_raised _ _ _ _ _ _ _ _ Hs) as [[Hf' _]|(c' & _ & Hcase)].
  - congruence.
  - done.
Qed.

(** The loop is not entered. *)
Lemma step_CI_skipped self pname dr sf m c :
  make_frame self pname dr sf = Returned c →
  loop_cond c (init_locals c) = false →
  step_CI self pname dr sf m = (Returned None, m, []).
Proof.
  intros Hf Hc. unfold step_CI. rewrite Hf.
  destruct (Z.to_nat (f_ctol c)); cbn [loop]; by rewrite Hc.
Qed.

(** X3. With a step budget of zero or less, or when the start value
    [popt - bd_eps] is already across the target bound, [step_CI] does
    not enter its loop: it calls no solver, prints nothing and returns
    [None]. *)
Theorem X3_loop_not_entered self pname dr sf m c :
  make_frame self pname dr sf = Returned c →
  (f_ctol c ≤ 0)%Z ∨ crosses dr (f_popt c - bd_eps dr) (f_bound c) = true →
  step_CI self pname dr sf m = (Returned None, m, []).
Proof.
  intros Hf Hor. apply (step_CI_skipped _ _ _ _ _ c Hf).
  pose proof Hf as Hf'.
  apply make_frame_spec in Hf' as (bds & alpha & _ & _ & _ & _ & Hc).
  assert (f_dr c = dr) as Hd by (by rewrite Hc).
  unfold loop_cond, init_locals. cbn [i err bdreach]. rewrite Hd.
  destruct Hor as [Hle|Hx].
  - replace (0 <? f_ctol c)%Z with false by lia. done.
  - rewrite Hx. cbn. by rewrite andb_false_r.
Qed.

End Returns.

(** ** How a run ends *)

(** Comparisons with NaN fail. *)
Lemma ltb_nan_r x : (x <? nan) = false.
Proof.
  rewrite ltb_spec. unfold SFltb. change (Prim2SF nan) with S754_nan.
  by destruct (Prim2SF x).
Qed.

Lemma leb_nan_l x : (nan <=? x) = false.
Proof. rewrite leb_spec. unfold SFleb. change (Prim2SF nan) with S754_nan. done. Qed.

(** The status lines of [step_CI]. *)
Definition budget_line : event := Print (Text "Maximum steps taken!").
Definition bound_line (dr : string) : event :=
Print (Text ("Reached parameter " +:+ drer dr +:+ " bound!")).
Definition error_line : event := Print (Text "Error occured!").

Section Ending.
Context {Model : Type} `{!Pyomo Model} `{!Numerics}.
Implicit Types (c : frame) (l : locals) (m : Model) (tr evs : list event).

(** What [pprint] prints ends with the row. *)
Lemma pprint_split pname j e pv st :
  ∃ pre, pprint pname j e pv st = pre ++ [Print (IterRow j e pv st pname)]
         ∧ rows pre = 0%nat ∧ (∀ s, Print (Text s) ∉ pre).
Proof.
  unfold pprint. destruct (_ =? _)%Z.
  - exists [Print TableHead]. split; [done|]. split; [done|].
    intros s Hin. in_events Hin; done.
  - exists []. split; [done|]. split; [done|]. intros s Hin. in_events Hin.
Qed.

(** The four ways a pass makes the function return its tuple, each
    with its status line and the value it returns. *)
Lemma last_pass_status c l m tr v sd vd od m' evs :
  inv c l tr → last_pass c l m (Returned (Some (v, sd, vd, od))) m' evs →
  (∃ e st, evs = Solve true :: pprint (f_pname c) (i l) e v st
                 ++ [converged_line (f_dr c); Print (ValueLine (dB (f_dr c)) v)]
           ∧ (f_etol c <? e) = true)
  ∨ (∃ e pv st, evs = Solve true :: pprint (f_pname c) (i l) e pv st ++ [budget_line]
                ∧ v = (if is_up (f_dr c) then infinity else neg_infinity)
                ∧ i l = (f_ctol c - 1)%Z ∧ (f_etol c <? e) = false)
  ∨ (∃ e st, evs = Solve true :: pprint (f_pname c) (i l) e v st
                   ++ [bound_line (f_dr c); Print (ValueLine (dB (f_dr c)) v)]
             ∧ (f_etol c <? e) = false)
  ∨ (∃ ok, evs = [Solve ok; Print ExnLine; error_line; Print (SetLine (dB (f_dr c)) v)]
           ∧ (0 < i l)%Z ∧ vd !! prname c l = Some v).
Proof.
  intros Hinv Hl. inversion Hl; subst.
  - right. right. right. exists ok. split; [done|].
    assert (is_Some (_var_dict l !! prname c l)) as Hsome by eauto.
    apply (inv_var _ _ _ Hinv) in Hsome as (j & Hj & Hk). apply key_inj in Hk.
    split; [lia|]. unfold iname, prname. rewrite lookup_delete_ne by (apply key_neq; lia).
    done.
  - destruct (progress_defined c l tr o (error_statistic o (f_obj_CI c))
                (stepfrac l) Hinv) as [d Hd']. congruence.
  - left. by eexists _, _.
  - right. left. eexists _, _, _. split; [done|]. split; [done|]. split; [lia|done].
  - right. right. left. by eexists _, _.
Qed.

(** X4. A run of [step_CI] that returns its tuple has printed exactly
    one of the four status lines, as its last line or the one before the
    value: after convergence and after reaching the bound the value
    returned is the one tried in the last pass (the one in the last
    printed row), after exhausting the budget it is the signed infinity,
    and after an exception caught in pass [j] (the run has printed the
    rows of the passes [0 .. j-1]) it is the value recorded for pass
    [j-1].  A run that returns [None] or raises has printed no status
    line. *)
Theorem X4_status_lines self pname dr sf m r m' tr :
  step_CI self pname dr sf m = (r, m', tr) →
  match r with
  | Returned (Some (v, sd, vd, od)) =>
      ∃ tr0 e pv st ok,
        (∀ s, Print (Text s) ∉ tr0)
        ∧ ((tr = tr0 ++ [Print (IterRow (Z.of_nat (rows tr0)) e v st pname);
                         converged_line dr; Print (ValueLine (dB dr) v)])
           ∨ (tr = tr0 ++ [Print (IterRow (Z.of_nat (rows tr0)) e pv st pname);
                           budget_line]
              ∧ v = (if is_up dr then infinity else neg_infinity))
           ∨ (tr = tr0 ++ [Print (IterRow (Z.of_nat (rows tr0)) e v st pname);
                           bound_line dr; Print (ValueLine (dB dr) v)])
           ∨ (tr = tr0 ++ [Solve ok; Print ExnLine; error_line;
                           Print (SetLine (dB dr) v)]
              ∧ (0 < rows tr0)%nat
              ∧ vd !! key pname dr (Z.of_nat (rows tr0) - 1) = Some v))
  | Returned None | Raised _ => ∀ s, Print (Text s) ∉ tr
  | Unmodelled => True
  end.
Proof.
  intros Hs.
  destruct (step_CI_cases _ _ _ _ _ _ _ _ Hs)
    as [([->|(e & -> & _)] & _ & _ & ->)|(c & lf & mf & trf & evs & Hf & Hr & Hl & ->)].
  { done. }
  { intros s. apply not_elem_of_nil. }
  pose proof (reach_inv _ _ _ _ _ Hr) as Hinv.
  pose proof (inv_i _ _ _ Hinv) as Hi.
  pose proof (inv_count _ _ _ Hinv) as Hcnt.
  apply make_frame_spec in Hf as (bds & alpha & _ & _ & _ & _ & Hc).
  assert (f_pname c = pname ∧ f_dr c = dr) as [Hp Hd] by (by rewrite Hc).
  assert (∀ s, Print (Text s) ∉ trf) as Hno by (intros s; by eapply reach_no_text).
  destruct Hl as [(_ & -> & _ & ->)|[_ Hit]].
  { by rewrite app_nil_r. }
  apply iteration_done in Hit.
  assert (∀ pre, rows pre = 0%nat → (∀ s, Print (Text s) ∉ pre) →
                 Z.of_nat (rows (trf ++ Solve true :: pre)) = i lf
                 ∧ ∀ s, Print (Text s) ∉ trf ++ Solve true :: pre) as Hpre.
  { intros pre Hz Hnt. split.
    - rewrite rows_app, Hcnt. change (rows (Solve true :: pre)) with (rows pre). lia.
    - intros s [Hin|Hin]%elem_of_app; [by apply (Hno s)|].
      apply elem_of_cons in Hin as [?|Hin]; [done|]. by apply (Hnt s). }
  destruct r as [[[[[v sd] vd] od]|]|e|]; [| | |done].
  - destruct (last_pass_status _ _ _ _ _ _ _ _ _ _ Hinv Hit)
      as [(e & st & -> & He)|[(e & pv & st & -> & -> & _)
         |[(e & st & -> & He)|(ok & -> & Hpos & Hv)]]];
      rewrite ?Hp, ?Hd in *.
    + destruct (pprint_split pname (i lf) e v st) as (pre & -> & Hz & Hnt).
      destruct (Hpre pre Hz Hnt) as [Hj Hnt'].
      exists (trf ++ Solve true :: pre), e, v, st, true. split; [done|]. left.
      rewrite Hj. by rewrite <- !app_assoc.
    + destruct (pprint_split pname (i lf) e pv st) as (pre & -> & Hz & Hnt).
      destruct (Hpre pre Hz Hnt) as [Hj Hnt'].
      exists (trf ++ Solve true :: pre), e, pv, st, true. split; [done|]. right. left.
      rewrite Hj. by rewrite <- !app_assoc.
    + destruct (pprint_split pname (i lf) e v st) as (pre & -> & Hz & Hnt).
      destruct (Hpre pre Hz Hnt) as [Hj Hnt'].
      exists (trf ++ Solve true :: pre), e, v, st, true. split; [done|]. right. right. left.
      rewrite Hj. by rewrite <- !app_assoc.
    + exists trf, 0, 0, 0, ok. split; [done|]. right. right. right.
      split; [done|]. split; [lia|]. rewrite Hcnt, Z2Nat.id by done.
      unfold prname in Hv. by rewrite Hp, Hd in Hv.
  - intros s [Hin|Hin]%elem_of_app; [by apply (Hno s)|].
    inversion Hit; subst.
    destruct (progress_defined c lf trf o (error_statistic o (f_obj_CI c))
                (stepfrac lf) Hinv) as [d Hd']. congruence.
  - intros s [Hin|Hin]%elem_of_app; [by apply (Hno s)|].
    inversion Hit; subst.
    + by apply elem_of_nil in Hin.
    + in_events Hin; done.
    + destruct (progress_defined c lf trf o (error_statistic o (f_obj_CI c))
                  (stepfrac lf) Hinv) as [d Hd']. congruence.
Qed.

End Ending.

(** ** A statistic that is not a number *)

Section NotANumber.
Context {Model : Type} `{!Pyomo Model} `{!Numerics}.
Implicit Types (c : frame) (l : locals) (m : Model) (tr evs : list event).

(** Between two passes [err] is the statistic of the last printed row,
    so a NaN row leaves the loop with a NaN [err]. *)
Lemma reach_nan_row c m0 l m tr j pv st pn :
  reach c (init_locals c) m0 l m tr →
  Print (IterRow j nan pv st pn) ∈ tr → err l = nan.
Proof.
  induction 1 as [|l m tr l' m' evs _ IH Hc Hit]; [by intros ?%elem_of_nil|].
  intros [Hin|Hin]%elem_of_app.
  - apply IH in Hin. unfold loop_cond in Hc. rewrite Hin, leb_nan_l in Hc.
    by rewrite andb_false_r in Hc.
  - apply iteration_next in Hit as (o & v & d & _ & _ & _ & _ & _ & -> & ->).
    in_events Hin; by simplify_eq.
Qed.

(** A NaN row is never followed by another pass. *)
Lemma nan_row_stops c m0 l m tr j pv st pn :
  reach c (init_locals c) m0 l m tr →
  Print (IterRow j nan pv st pn) ∈ tr → loop_cond c l = false.
Proof.
  intros Hr Hin. unfold loop_cond.
  rewrite (reach_nan_row _ _ _ _ _ _ _ _ _ Hr Hin), leb_nan_l.
  by rewrite andb_false_r.
Qed.

(** X5. When the error statistic of a pass is NaN (the logarithm of a
    negative objective, for one), the row of that pass is the last one
    of the run, and no solver call follows it.  The run does not report
    convergence.  If the pass is the last one the budget allows, the
    run reports that and returns the signed infinity; otherwise it
    either reports the bound reached and returns the tried value, or
    leaves its loop (a NaN statistic fails the loop condition) and
    returns [None] without a status line. *)
Theorem X5_nan_statistic self pname dr sf m c r m' tr j pv st pn :
  make_frame self pname dr sf = Returned c →
  step_CI self pname dr sf m = (r, m', tr) →
  Print (IterRow j nan pv st pn) ∈ tr →
  ∃ tr0 tail,
    tr = tr0 ++ [Print (IterRow j nan pv st pn)] ++ tail
    ∧ j = Z.of_nat (rows tr0)
    ∧ (converged_line dr ∉ tr)
    ∧ if (j =? f_ctol c - 1)%Z
      then tail = [budget_line]
           ∧ ∃ sd vd od,
               r = Returned (Some ((if is_up dr then infinity else neg_infinity),
                                   sd, vd, od))
      else (tail = [] ∧ r = Returned None)
           ∨ (tail = [bound_line dr; Print (ValueLine (dB dr) pv)]
              ∧ ∃ sd vd od, r = Returned (Some (pv, sd, vd, od))).
Proof.
  intros Hf Hs Hrow.
  destruct (step_CI_cases _ _ _ _ _ _ _ _ Hs)
    as [(_ & _ & _ & ->)|(c' & lf & mf & trf & evs & Hf' & Hr & Hl & ->)].
  { by apply elem_of_nil in Hrow. }
  assert (c' = c) as -> by congruence.
  pose proof (reach_inv _ _ _ _ _ Hr) as Hinv.
  pose proof (inv_i _ _ _ Hinv) as Hi.
  apply make_frame_spec in Hf as (bds & alpha & _ & _ & _ & _ & Hc).
  assert (f_pname c = pname ∧ f_dr c = dr) as [Hp Hd] by (by rewrite Hc).
  assert (converged_line dr ∉ trf) as Hno by (by eapply reach_no_text).
  destruct Hl as [(Hcond & -> & -> & ->)|[Hcond Hit]].
  { (* the loop is left through its condition: the row ends the last pass *)
    rewrite app_nil_r in *.
    inversion Hr as [|l1 m1 tr1 l2 m2 evs2 Hr1 Hc1 Hn]; subst.
    { by apply elem_of_nil in Hrow. }
    apply elem_of_app in Hrow as [Hrow|Hrow].
    { by rewrite (nan_row_stops _ _ _ _ _ _ _ _ _ Hr1 Hrow) in Hc1. }
    pose proof (inv_count _ _ _ (reach_inv _ _ _ _ _ Hr1)) as Hcnt.
    pose proof (inv_i _ _ _ (reach_inv _ _ _ _ _ Hr1)) as Hi1.
    apply iteration_next in Hn as (o & v & d & _ & _ & _ & Hlast & _ & _ & ->).
    destruct (pprint_split (f_pname c) (i l1) (error_statistic o (f_obj_CI c))
                (trial c l1) (adapt d (stepfrac l1) (f_def_SF c) * f_popt c))
      as (pre & Hpp & Hz & Hnt).
    apply elem_of_cons in Hrow as [?|Hrow]; [done|].
    apply elem_of_pprint in Hrow as [?|Hrow]; [done|]. injection Hrow as -> Hnan -> -> ->.
    rewrite <- Hnan in *. rewrite Hpp in *.
    exists (tr1 ++ Solve true :: pre), []. split; [by rewrite <- !app_assoc|].
    split.
    { rewrite rows_app, Hcnt. change (rows (Solve true :: pre)) with (rows pre). lia. }
    split; [done|]. rewrite Hlast. by left. }
  apply elem_of_app in Hrow as [Hrow|Hrow].
  { by rewrite (nan_row_stops _ _ _ _ _ _ _ _ _ Hr Hrow) in Hcond. }
  pose proof (inv_count _ _ _ Hinv) as Hcnt.
  assert (∀ pre, rows pre = 0%nat →
                 i lf = Z.of_nat (rows (trf ++ Solve true :: pre))) as Hj.
  { intros pre Hz. rewrite rows_app, Hcnt.
    change (rows (Solve true :: pre)) with (rows pre). lia. }
  apply iteration_done in Hit.
  inversion Hit as [m1 e Hset|m1 ok Hca Hv|m1 ok v Hca Hv|m1 o v r1 evs1 Hs1 Hpr
                   |m1 o v d Hs1 Hpr He|m1 o v d Hs1 Hpr He Hlast
                   |m1 o v d Hs1 Hpr He Hlast Hx]; subst.
  - by apply elem_of_nil in Hrow.
  - in_events Hrow; done.
  - in_events Hrow; done.
  - destruct (progress_defined c lf trf o (error_statistic o (f_obj_CI c))
                (stepfrac lf) Hinv) as [d Hd']. congruence.
  - in_events Hrow; simplify_eq.
    match goal with Heq : nan = _ |- _ => rewrite <- Heq, ltb_nan_r in He end. done.
  - destruct (pprint_split (f_pname c) (i lf) (error_statistic o (f_obj_CI c))
                (trial c lf) (adapt d (stepfrac lf) (f_def_SF c) * f_popt c))
      as (pre & Hpp & Hz & Hnt).
    in_events Hrow; try done. injection Hrow as -> Hnan -> -> ->.
    rewrite <- Hnan in *. rewrite Hpp.
    exists (trf ++ Solve true :: pre), [budget_line].
    split; [by rewrite <- !app_assoc|]. split; [by apply Hj|]. split.
    { intros [Hin|Hin]%elem_of_app; [done|]. in_events Hin; try done.
      by apply (Hnt _ Hin). }
    rewrite Hlast. split; [done|]. by eauto.
  - destruct (pprint_split (f_pname c) (i lf) (error_statistic o (f_obj_CI c))
                (trial c lf) (adapt d (stepfrac lf) (f_def_SF c) * f_popt c))
      as (pre & Hpp & Hz & Hnt).
    in_events Hrow; try done. injection Hrow as -> Hnan -> -> ->.
    rewrite <- Hnan in *. rewrite Hpp.
    exists (trf ++ Solve true :: pre),
      [bound_line (f_dr c); Print (ValueLine (dB (f_dr c)) (trial c lf))].
    split; [by rewrite <- !app_assoc|]. split; [by apply Hj|]. split.
    { intros [Hin|Hin]%elem_of_app; [done|]. in_events Hin; try done.
      - by apply (Hnt _ Hin).
      - unfold converged_line, bound_line, drer in *. by destruct (is_up (f_dr c)). }
    rewrite Hlast. right. split; [done|]. by eauto.
Qed.

End NotANumber.

(** ** Sequencing *)

Section Sequencing.
Context {Model : Type}.

Lemma bind_returned {A B} (x : comp Model A) (k : A → comp Model B) m b m2 tr :
  bind x k m = (Returned b, m2, tr) →
  ∃ a m1 e1 e2,
    x m = (Returned a, m1, e1) ∧ k a m1 = (Returned b, m2, e2) ∧ tr = e1 ++ e2.
Proof.
  unfold bind. destruct (x m) as [[[a| |] m1] e1]; [|done..].
  destruct (k a m1) as [[r m3] e2] eqn:Hk. intros [= -> -> <-].
  by exists a, m1, e1, e2.
Qed.

Lemma bind_raised {A B} (x : comp Model A) (k : A → comp Model B) m e m2 tr :
  bind x k m = (Raised e, m2, tr) →
  x m = (Raised e, m2, tr)
  ∨ ∃ a m1 e1 e2,
      x m = (Returned a, m1, e1) ∧ k a m1 = (Raised e, m2, e2) ∧ tr = e1 ++ e2.
Proof.
  unfold bind. destruct (x m) as [[r m1] e1]. destruct r as [a|e'|].
  - destruct (k a m1) as [[r m3] e2] eqn:Hk. intros [= -> -> <-].
    right. by exists a, m1, e1, e2.
  - intros [= -> -> ->]. by left.
  - intros Heq. discriminate Heq.
Qed.

(** [bounded n x]: whatever the model, [x] calls the solver at most [n]
    times. *)
Definition bounded {A} (n : nat) (x : comp Model A) : Prop :=
∀ m, (solves (x m).2 ≤ n)%nat.

Lemma bounded_bind {A B} n1 n2 (x : comp Model A) (k : A → comp Model B) :
  bounded n1 x → (∀ a, bounded n2 (k a)) → bounded (n1 + n2) (bind x k).
Proof.
  intros Hx Hk m. unfold bind. specialize (Hx m).
  destruct (x m) as [[[a| |] m1] e1]; cbn [snd] in *; [|lia..].
  specialize (Hk a m1). destruct (k a m1) as [[r m2] e2]. cbn [snd] in *.
  rewrite solves_app. lia.
Qed.

Lemma bounded_ret {A} (a : A) : bounded 0 (ret a).
Proof. by intros m. Qed.

Lemma bounded_raise {A} e : bounded 0 (raise e : comp Model A).
Proof. by intros m. Qed.

Lemma bounded_print l : bounded 0 (print l : comp Model unit).
Proof. by intros m. Qed.

Lemma bounded_update f : bounded 0 (update f : comp Model unit).
Proof. by intros m. Qed.

Lemma bounded_attempt f : bounded 0 (attempt f : comp Model unit).
Proof. intros m. unfold attempt. by destruct (f m) as [m' [e|]]. Qed.

Lemma bounded_subscript {A} (d : gmap string A) k : bounded 0 (subscript d k : comp Model A).
Proof. intros m. unfold subscript. by destruct (d !! k). Qed.

Lemma bounded_le {A} n n' (x : comp Model A) : bounded n x → (n ≤ n')%nat → bounded n' x.
Proof. intros Hx Hle m. specialize (Hx m). lia. Qed.

End Sequencing.

(** Inversion of a sequence that returned, one step at a time. *)
Ltac returned_step H :=
  let a := fresh "a" in let m1 := fresh "m" in
  let e1 := fresh "evs" in let e2 := fresh "evs" in
  let H1 := fresh "Hstep" in let Heq := fresh "Htr" in
  apply bind_returned in H as (a & m1 & e1 & e2 & H1 & H & Heq).

(** The same for a step that prints, updates the model or looks a key
    up. *)
Ltac plain_step H :=
  let a := fresh "a" in let m1 := fresh "m" in
  let e1 := fresh "evs" in let e2 := fresh "evs" in
  let H1 := fresh "Hstep" in let Heq := fresh "Htr" in
  apply bind_returned in H as (a & m1 & e1 & e2 & H1 & H & Heq);
  unfold print_bound, unpack, subscript, update, attempt, print, ret in H1;
  split_matches H1; simplify_eq.

(** ** The orchestrator *)

Section OrchestratorFacts.
Context {Model : Type} `{!Pyomo Model} `{!Numerics}.
Implicit Types (m : Model) (tr evs : list event) (a : acc).

(** The events of the walk in one direction: its heading, then the run. *)
Definition heading (pname direction : string) (b : float) : list event :=
[Print Blank; Print (ParameterLine pname); Print (DirectionLine direction);
 Print (BoundLine b); Print Blank].

(** The body of the loop over the parameters, when it completes. *)
Lemma profile_returned self sf pname a m a' m' tr :
  profile self sf pname a m = (Returned a', m', tr) →
  ∃ lb0 ub0 p ub us uv uo lb ds dv do m1 m2 m3 m4 tr_up tr_dn,
    pbounds self !! pname = Some (Some lb0, Some ub0)
    ∧ popt self !! pname = Some p
    ∧ step_CI self pname "up" sf (fix_var pname m)
      = (Returned (Some (ub, us, uv, uo)), m1, tr_up)
    ∧ set_value pname p m1 = (m2, None)
    ∧ step_CI self pname "down" sf m2
      = (Returned (Some (lb, ds, dv, do)), m3, tr_dn)
    ∧ set_value pname p m3 = (m4, None)
    ∧ m' = unfix pname m4
    ∧ a' = Acc (ds ∪ (us ∪ a_states a)) (<[pname := ub]> (a_parub a))
             (<[pname := lb]> (a_parlb a)) (dv ∪ (uv ∪ a_var a))
             (do ∪ (uo ∪ a_obj a))
    ∧ tr = heading pname "Upward" ub0 ++ tr_up
           ++ heading pname "Downward" lb0 ++ tr_dn.
Proof.
  unfold profile. intros Hpr.
  do 7 plain_step Hpr.
  returned_step Hpr. rename Hstep into Hup. subst.
  plain_step Hpr. split_matches Hpr.
  do 8 plain_step Hpr.
  returned_step Hpr. rename Hstep into Hdn. subst.
  plain_step Hpr. split_matches Hpr.
  do 3 plain_step Hpr.
  unfold ret in Hpr. simplify_eq.
  match goal with Hb : pbounds self !! pname = Some ?b |- _ => destruct b as [lb0 ub0] end.
  cbn [fst snd] in *. subst.
  eexists _, _, _, _, _, _, _, _, _, _, _, _, _, _, _, _, _.
  split; [done|]. split; [done|]. split; [exact Hup|]. split; [eassumption|].
  split; [exact Hdn|]. split; [eassumption|].
  split; [done|]. split; [done|].
  unfold heading. cbn. by rewrite !app_nil_r.
Qed.

(** What [step_CI] finds in a session that [get_CI] has configured. *)
Lemma make_frame_in_session self N alpha pname dr sf :
  make_frame (configured self N alpha) pname dr sf
  = match pbounds self !! pname, popt self !! pname with
    | Some bds, Some p =>
        Returned (Frame pname dr p (target_bound dr bds) (signed_stepfrac dr sf) N
                    (chi2_isf alpha 1) (obj self))
    | _, _ => Raised (KeyError pname)
    end.
Proof.
  unfold make_frame, get_ctol, get_alpha, configured. cbn.
  rewrite lookup_insert_ne, !lookup_insert_eq by done.
  by destruct (pbounds self !! pname), (popt self !! pname).
Qed.

(** The solver calls of one run are within the step budget. *)
Lemma step_CI_solves self pname dr sf m c :
  make_frame self pname dr sf = Returned c →
  (solves (step_CI self pname dr sf m).2 ≤ Z.to_nat (f_ctol c))%nat.
Proof.
  intros Hf. destruct (step_CI self pname dr sf m) as [[r m'] tr] eqn:Hs. cbn [snd].
  destruct (step_CI_cases _ _ _ _ _ _ _ _ Hs)
    as [(_ & Hno & _)|(c' & lf & mf & trf & evs & Hf' & Hr & Hl & ->)];
    [by destruct (Hno c)|].
  assert (c' = c) as -> by congruence.
  pose proof (reach_inv _ _ _ _ _ Hr) as Hinv.
  pose proof (inv_i _ _ _ Hinv) as Hi. pose proof (inv_budget _ _ _ Hinv) as Hb.
  rewrite solves_log, solve_log_app, length_app, (inv_log _ _ _ Hinv), length_replicate.
  destruct Hl as [(Hc & -> & -> & ->)|[Hc Hit]]; [cbn; lia|].
  apply loop_cond_budget in Hc. apply iteration_done in Hit.
  destruct (last_pass_log _ _ _ _ _ _ _ Hinv Hit)
    as [[-> _]|[(ok & -> & _)|[-> _]]]; cbn; lia.
Qed.

Lemma step_CI_bounded self N alpha pname dr sf :
  bounded (Z.to_nat N) (step_CI (Model := Model) (configured self N alpha) pname dr sf).
Proof.
  intros m.
  destruct (make_frame (configured self N alpha) pname dr sf) as [c|e|] eqn:Hf.
  - pose proof (step_CI_solves _ _ _ _ m c Hf) as Hle.
    apply make_frame_configured in Hf as (Hct & _). by rewrite Hct in Hle.
  - unfold step_CI. rewrite Hf. cbn. lia.
  - unfold step_CI. rewrite Hf. cbn. lia.
Qed.

Lemma profile_bounded self N alpha sf pname a :
  bounded (2 * Z.to_nat N) (profile (Model := Model) (configured self N alpha) sf pname a).
Proof.
  eapply bounded_le.
  - unfold profile.
    repeat first
      [ apply bounded_ret
      | apply bounded_print
      | apply bounded_update
      | apply bounded_attempt
      | apply bounded_subscript
      | apply step_CI_bounded
      | (unfold print_bound; match goal with |- bounded _ (match ?b with _ => _ end) =>
           destruct b; [apply bounded_print|apply bounded_raise] end)
      | (unfold unpack; match goal with |- bounded _ (match ?b with _ => _ end) =>
           destruct b; [apply bounded_ret|apply bounded_raise] end)
      | (match goal with |- bounded _ (let '(_, _) := ?r in _) =>
           destruct r as [[[? ?] ?] ?] end)
      | (eapply bounded_bind; [|intros ?]) ].
  - lia.
Qed.

Lemma profile_all_bounded self N alpha sf names a :
  bounded (2 * Z.to_nat N * length names)
    (profile_all (Model := Model) (configured self N alpha) sf names a).
Proof.
  revert a. induction names as [|p names IH]; intros a; cbn [profile_all length].
  - eapply bounded_le; [apply bounded_ret|lia].
  - eapply bounded_le.
    + eapply bounded_bind; [apply profile_bounded|]. intros a'. apply IH.
    + lia.
Qed.

(** X6. [get_CI] calls the solver at most [2 * max_steps] times for each
    profiled parameter, however it ends. *)
Theorem X6_solver_calls self N alpha sf m :
  (solves (get_CI self N alpha sf m).2 ≤ 2 * Z.to_nat N * length (pnames self))%nat.
Proof.
  unfold get_CI.
  pose proof (profile_all_bounded self N alpha sf (pnames self)
                (Acc ∅ (popt (configured self N alpha)) (popt (configured self N alpha)) ∅ ∅)
                m) as Hb.
  change (pnames (configured self N alpha)) with (pnames self).
  destruct (profile_all _ _ _ _ m) as [[[a| |] m'] evs]; exact Hb.
Qed.

End OrchestratorFacts.

(** ** What [get_CI] returns *)

Section Intervals.
Context {Model : Type} `{!Pyomo Model} `{!Numerics}.
Implicit Types (m : Model) (tr evs : list event) (a : acc).

(** Both directions, as [get_CI] names them. *)
Definition direction (d : string) : Prop := d = "up" ∨ d = "down".

(** What the accumulated dictionaries hold once the loop over the
    names has completed. *)
Record gathered (self : PyMPLE) (names : list string) (a a' : acc) : Prop := {
  g_bounds : ∀ p, p ∈ names → ∃ lb ub, pbounds self !! p = Some (Some lb, Some ub);
  g_known : ∀ p, p ∈ names → is_Some (popt self !! p);
  g_parub : ∀ p, is_Some (a_parub a' !! p) ↔ is_Some (a_parub a !! p) ∨ p ∈ names;
  g_parlb : ∀ p, is_Some (a_parlb a' !! p) ↔ is_Some (a_parlb a !! p) ∨ p ∈ names;
  g_parub_other : ∀ p, p ∉ names → a_parub a' !! p = a_parub a !! p;
  g_parlb_other : ∀ p, p ∉ names → a_parlb a' !! p = a_parlb a !! p;
  g_states : a_states a = ∅ → a_states a' = ∅;
  g_same : (∀ k, is_Some (a_var a !! k) ↔ is_Some (a_obj a !! k)) →
           ∀ k, is_Some (a_var a' !! k) ↔ is_Some (a_obj a' !! k);
  g_keys : ∀ k, is_Some (a_var a' !! k) →
                is_Some (a_var a !! k)
                ∨ ∃ p d j, p ∈ names ∧ direction d ∧ (0 ≤ j)%Z ∧ k = key p d j
}.

Lemma is_Some_union {A} (d1 d2 : gmap string A) k :
  is_Some ((d1 ∪ d2) !! k) ↔ is_Some (d1 !! k) ∨ is_Some (d2 !! k).
Proof.
  rewrite lookup_union. destruct (d1 !! k), (d2 !! k); cbn;
    split; intros; try (by eauto); by destruct_or?; destruct_and?; simplify_eq/=;
    repeat match goal with H : is_Some None |- _ => destruct H as [? ?] end.
Qed.

Lemma gathered_one self sf pname a m a' m' tr :
  profile self sf pname a m = (Returned a', m', tr) → gathered self [pname] a a'.
Proof.
  intros Hp.
  apply profile_returned in Hp
    as (lb0 & ub0 & p & ub & us & uv & uo & lb & ds & dv & do & m1 & m2 & m3 & m4
        & tr_up & tr_dn & Hb & Hpo & Hup & _ & Hdn & _ & _ & -> & _).
  destruct (step_CI_keys _ _ _ _ _ _ _ _ _ _ _ Hup) as [-> Hku].
  destruct (step_CI_keys _ _ _ _ _ _ _ _ _ _ _ Hdn) as [-> Hkd].
  split; cbn [a_states a_parub a_parlb a_var a_obj].
  - intros q ->%list_elem_of_singleton. by eauto.
  - intros q ->%list_elem_of_singleton. by eauto.
  - intros q. rewrite list_elem_of_singleton.
    destruct (decide (q = pname)) as [->|Hne].
    + rewrite lookup_insert_eq. split; [by right|by eauto].
    + rewrite lookup_insert_ne by done. split; [by left|]. by intros [?|?].
  - intros q. rewrite list_elem_of_singleton.
    destruct (decide (q = pname)) as [->|Hne].
    + rewrite lookup_insert_eq. split; [by right|by eauto].
    + rewrite lookup_insert_ne by done. split; [by left|]. by intros [?|?].
  - intros q Hq. rewrite list_elem_of_singleton in Hq. by rewrite lookup_insert_ne.
  - intros q Hq. rewrite list_elem_of_singleton in Hq. by rewrite lookup_insert_ne.
  - intros ->. by rewrite !(left_id_L ∅ (∪)).
  - intros Hsame k. rewrite !is_Some_union.
    rewrite (proj1 (Hku k)), (proj1 (Hkd k)), (Hsame k). done.
  - intros k. rewrite !is_Some_union. intros [Hk|[Hk|Hk]].
    + right. apply (Hkd k) in Hk as (j & Hj & ->).
      exists pname, "down", j. split; [by apply list_elem_of_singleton|].
      split; [by right|]. split; [lia|done].
    + right. apply (Hku k) in Hk as (j & Hj & ->).
      exists pname, "up", j. split; [by apply list_elem_of_singleton|].
      split; [by left|]. split; [lia|done].
    + by left.
Qed.

Lemma gathered_nil self a : gathered self [] a a.
Proof.
  split; try done.
  - by intros p ?%elem_of_nil.
  - by intros p ?%elem_of_nil.
  - intros p. split; [by left|]. by intros [?|?%elem_of_nil].
  - intros p. split; [by left|]. by intros [?|?%elem_of_nil].
  - intros k Hk. by left.
Qed.

Lemma gathered_cons self p names a a1 a2 :
  gathered self [p] a a1 → gathered self names a1 a2 → gathered self (p :: names) a a2.
Proof.
  intros H1 H2. split.
  - intros q [->|Hq]%elem_of_cons.
    + apply (g_bounds _ _ _ _ H1). by apply list_elem_of_singleton.
    + by apply (g_bounds _ _ _ _ H2).
  - intros q [->|Hq]%elem_of_cons.
    + apply (g_known _ _ _ _ H1). by apply list_elem_of_singleton.
    + by apply (g_known _ _ _ _ H2).
  - intros q. rewrite (g_parub _ _ _ _ H2), (g_parub _ _ _ _ H1),
      list_elem_of_singleton, elem_of_cons. tauto.
  - intros q. rewrite (g_parlb _ _ _ _ H2), (g_parlb _ _ _ _ H1),
      list_elem_of_singleton, elem_of_cons. tauto.
  - intros q Hq. rewrite not_elem_of_cons in Hq. destruct Hq as [Hne Hq].
    rewrite (g_parub_other _ _ _ _ H2) by done.
    apply (g_parub_other _ _ _ _ H1). by rewrite list_elem_of_singleton.
  - intros q Hq. rewrite not_elem_of_cons in Hq. destruct Hq as [Hne Hq].
    rewrite (g_parlb_other _ _ _ _ H2) by done.
    apply (g_parlb_other _ _ _ _ H1). by rewrite list_elem_of_singleton.
  - intros Ha. apply (g_states _ _ _ _ H2), (g_states _ _ _ _ H1), Ha.
  - intros Ha. apply (g_same _ _ _ _ H2), (g_same _ _ _ _ H1), Ha.
  - intros k Hk. apply (g_keys _ _ _ _ H2) in Hk as [Hk|(q & d & j & Hq & Hd & Hj & ->)].
    + apply (g_keys _ _ _ _ H1) in Hk as [Hk|(q & d & j & Hq & Hd & Hj & ->)]; [by left|].
      right. exists q, d, j. apply list_elem_of_singleton in Hq as ->.
      split; [by apply elem_of_cons; left|done].
    + right. exists q, d, j. split; [by apply elem_of_cons; right|done].
Qed.

Lemma profile_all_gathered self sf names a m a' m' tr :
  profile_all self sf names a m = (Returned a', m', tr) → gathered self names a a'.
Proof.
  revert a m tr. induction names as [|p names IH]; intros a m tr Hall; cbn in Hall.
  - unfold ret in Hall. simplify_eq. apply gathered_nil.
  - apply bind_returned in Hall as (a1 & m1 & e1 & e2 & Hone & Hrest & _).
    eapply gathered_cons; [by eapply gathered_one|by eapply IH].
Qed.

(** What [get_CI] returns, in terms of the loop over the names. *)
Lemma get_CI_returned self N alpha sf m res self' m' tr :
  get_CI self N alpha sf m = (Returned (res, self'), m', tr) →
  ∃ a, gathered self (pnames self) (Acc ∅ (popt self) (popt self) ∅ ∅) a
       ∧ self' = completed (configured self N alpha) a
       ∧ res = {[ "Lower Bound" := a_parlb a; "Upper Bound" := a_parub a ]}.
Proof.
  unfold get_CI. intros Hg.
  destruct (profile_all _ _ _ _ _) as [[[a| |] m1] evs] eqn:Hall; simplify_eq.
  exists a. split; [|done]. apply profile_all_gathered in Hall.
  destruct Hall. by split.
Qed.

(** X7. [get_CI] completes only if every profiled parameter has both
    bounds declared: the heading it prints before each walk formats the
    bound, which fails on [None]. *)
Theorem X7_needs_both_bounds self N alpha sf m res self' m' tr :
  get_CI self N alpha sf m = (Returned (res, self'), m', tr) →
  ∀ p, p ∈ pnames self → ∃ lb ub, pbounds self !! p = Some (Some lb, Some ub).
Proof.
  intros Hg. apply get_CI_returned in Hg as (a & Ha & _). apply (g_bounds _ _ _ _ Ha).
Qed.

(** X8. The dictionary [get_CI] returns has the two keys ['Lower
    Bound'] and ['Upper Bound'] and no other; each of the two holds an
    entry for every name of [popt] and every profiled name, a name
    that is not profiled keeps its optimal value on both sides, and the
    session's [parlb] and [parub] are these two dictionaries. *)
Theorem X8_returned_dictionary self N alpha sf m res self' m' tr :
  get_CI self N alpha sf m = (Returned (res, self'), m', tr) →
  ∃ lbs ubs,
    res = {[ "Lower Bound" := lbs; "Upper Bound" := ubs ]}
    ∧ (∀ k, is_Some (res !! k) ↔ k = "Lower Bound" ∨ k = "Upper Bound")
    ∧ (∀ p, is_Some (lbs !! p) ↔ is_Some (popt self !! p) ∨ p ∈ pnames self)
    ∧ (∀ p, is_Some (ubs !! p) ↔ is_Some (popt self !! p) ∨ p ∈ pnames self)
    ∧ (∀ p, p ∉ pnames self → lbs !! p = popt self !! p ∧ ubs !! p = popt self !! p)
    ∧ attrs self' !! "parlb" = Some (float_dict lbs)
    ∧ attrs self' !! "parub" = Some (float_dict ubs).
Proof.
  intros Hg. apply get_CI_returned in Hg as (a & Ha & -> & ->).
  exists (a_parlb a), (a_parub a). split; [done|]. split.
  { intros k. destruct (decide (k = "Lower Bound")) as [->|Hl].
    - rewrite lookup_insert_eq. split; [by left|by eauto].
    - rewrite lookup_insert_ne by done.
      destruct (decide (k = "Upper Bound")) as [->|Hu].
      + rewrite lookup_singleton_eq. split; [by right|by eauto].
      + rewrite lookup_singleton_ne by done. split; [by intros []|by intros [?|?]]. }
  split; [apply (g_parlb _ _ _ _ Ha)|]. split; [apply (g_parub _ _ _ _ Ha)|].
  split.
  { intros p Hp. split; [by apply (g_parlb_other _ _ _ _ Ha)|by apply (g_parub_other _ _ _ _ Ha)]. }
  rewrite completed_attrs. by simplify_map_eq.
Qed.

(** X9. After [get_CI] the session's [var_dict] and [obj_dict] have the
    same keys, each of them [p_up_j] or [p_down_j] for a profiled
    parameter [p] and an iteration [j >= 0]. *)
Theorem X9_trajectory_keys self N alpha sf m res self' m' tr :
  get_CI self N alpha sf m = (Returned (res, self'), m', tr) →
  ∃ vd od : gmap string float,
    attrs self' !! "var_dict" = Some (float_dict vd)
    ∧ attrs self' !! "obj_dict" = Some (float_dict od)
    ∧ ∀ k, (is_Some (vd !! k) ↔ is_Some (od !! k))
           ∧ (is_Some (vd !! k) →
              ∃ p d j, p ∈ pnames self ∧ direction d ∧ (0 ≤ j)%Z ∧ k = key p d j).
Proof.
  intros Hg. apply get_CI_returned in Hg as (a & Ha & -> & _).
  exists (a_var a), (a_obj a). rewrite completed_attrs.
  split; [by simplify_map_eq|]. split; [by simplify_map_eq|].
  intros k. split.
  - apply (g_same _ _ _ _ Ha). intros k'. cbn. by rewrite !lookup_empty.
  - intros Hk. apply (g_keys _ _ _ _ Ha) in Hk as [Hk|Hk]; [|done].
    cbn in Hk. rewrite lookup_empty in Hk. by destruct Hk.
Qed.

End Intervals.

(** ** The exceptions of [get_CI] *)

Section Raising.
Context {Model : Type}.

(** [raises P x]: an exception [x] raises satisfies [P]. *)
Definition raises {A} (P : exn → Prop) (x : comp Model A) : Prop :=
∀ m e m' tr, x m = (Raised e, m', tr) → P e.

Lemma raises_bind {A B} P (x : comp Model A) (k : A → comp Model B) :
  raises P x → (∀ a, raises P (k a)) → raises P (bind x k).
Proof.
  intros Hx Hk m e m' tr [Hr|(a & m1 & e1 & e2 & _ & Hr & _)]%bind_raised.
  - by eapply Hx.
  - by eapply Hk.
Qed.

Lemma raises_ret {A} P (a : A) : raises P (ret a).
Proof. by intros m e m' tr. Qed.

Lemma raises_print P l : raises P (print l : comp Model unit).
Proof. by intros m e m' tr. Qed.

Lemma raises_update P f : raises P (update f : comp Model unit).
Proof. by intros m e m' tr. Qed.

Lemma raises_attempt (P : exn → Prop) f :
  (∀ m m' e, f m = (m', Some e) → P e) → raises P (attempt f : comp Model unit).
Proof.
  intros Hf m e m' tr. unfold attempt. destruct (f m) as [m1 [e1|]] eqn:Hfm; [|done].
  intros [= <- _ _]. by eapply Hf.
Qed.

Lemma raises_raise {A} (P : exn → Prop) e : P e → raises P (raise e : comp Model A).
Proof. intros He m e' m' tr [= <- _ _]. done. Qed.

Lemma raises_subscript {A} P (d : gmap string A) k :
  is_Some (d !! k) → raises P (subscript d k : comp Model A).
Proof. intros [v Hv]. unfold subscript. rewrite Hv. apply raises_ret. Qed.

End Raising.

Section GetCIExceptions.
Context {Model : Type} `{!Pyomo Model} `{!Numerics}.
Implicit Types (m : Model) (tr evs : list event) (a : acc).

(** The exceptions one walk can end in. *)
Definition walk_exception (pname : string) (e : exn) : Prop :=
e = TypeError
∨ (∃ d, direction d ∧ e = KeyError (key pname d (-1)))
∨ (∃ x m0 m1, set_value pname x m0 = (m1, Some e)).

Lemma step_CI_raises self N alpha pname d sf :
  is_Some (pbounds self !! pname) → is_Some (popt self !! pname) → direction d →
  raises (walk_exception pname)
    (step_CI (Model := Model) (configured self N alpha) pname d sf).
Proof.
  intros [bds Hb] [p Hp] Hd m e m' tr Hs.
  apply step_CI_raised in Hs as [[Hf _]|(c & _ & [(x & m0 & Hset & _)|(-> & _)])].
  - rewrite make_frame_in_session, Hb, Hp in Hf. done.
  - right. right. by exists x, m0, m'.
  - right. left. by exists d.
Qed.

Lemma profile_raises self N alpha sf pname a :
  is_Some (pbounds self !! pname) → is_Some (popt self !! pname) →
  raises (walk_exception pname)
    (profile (Model := Model) (configured self N alpha) sf pname a).
Proof.
  intros Hb Hp. unfold profile.
  repeat first
    [ apply raises_ret
    | apply raises_print
    | apply raises_update
    | (apply raises_attempt; intros m0 m1 e0 Hset; right; right; by eexists _, _, _)
    | (apply raises_subscript; assumption)
    | (apply step_CI_raises; [assumption|assumption|(by left) || (by right)])
    | (unfold print_bound; match goal with |- raises _ (match ?b with _ => _ end) =>
         destruct b; [apply raises_print|apply raises_raise; by left] end)
    | (unfold unpack; match goal with |- raises _ (match ?b with _ => _ end) =>
         destruct b; [apply raises_ret|apply raises_raise; by left] end)
    | (match goal with |- raises _ (let '(_, _) := ?r in _) =>
         destruct r as [[[? ?] ?] ?] end)
    | (apply raises_bind; [|intros ?]) ].
Qed.

Lemma profile_all_raises self N alpha sf names a :
  (∀ p, p ∈ names → is_Some (pbounds self !! p) ∧ is_Some (popt self !! p)) →
  raises (fun e => ∃ p, p ∈ names ∧ walk_exception p e)
    (profile_all (Model := Model) (configured self N alpha) sf names a).
Proof.
  revert a. induction names as [|p names IH]; intros a Hall; cbn [profile_all].
  - apply raises_ret.
  - apply raises_bind.
    + intros m e m' tr Hr. exists p. split; [by apply elem_of_cons; left|].
      destruct (Hall p) as [Hb Hp]; [by apply elem_of_cons; left|].
      by eapply profile_raises.
    + intros a' m e m' tr Hr.
      destruct (IH a' (fun q Hq => Hall q (proj2 (elem_of_cons _ _ _) (or_intror Hq)))
                  m e m' tr Hr) as (q & Hq & He).
      exists q. split; [by apply elem_of_cons; right|done].
Qed.

Lemma get_CI_raised self N alpha sf m e m' tr :
  (∀ p, p ∈ pnames self → is_Some (pbounds self !! p) ∧ is_Some (popt self !! p)) →
  get_CI self N alpha sf m = (Raised e, m', tr) →
  ∃ p, p ∈ pnames self ∧ walk_exception p e.
Proof.
  intros Hall. unfold get_CI. intros Hg.
  destruct (profile_all _ _ _ _ m) as [[[a| |] m1] evs] eqn:Hpa; simplify_eq.
  by eapply (profile_all_raises self N alpha sf (pnames self)).
Qed.

End GetCIExceptions.

(** ** The constructor *)

Section InitFacts.
Context {Model : Type} `{!Pyomo Model}.
Implicit Types (m : Model) (tr evs : list event).

Lemma optima_returned names po m po' m' tr :
  optima names po m = (Returned po', m', tr) →
  m' = m ∧ tr = []
  ∧ (∀ p, p ∈ names →
          find_component p m = None
          ∨ ∃ v bds, find_component p m = Some (inl v, bds) ∧ po' !! p = Some v)
  ∧ (∀ p, p ∉ names → po' !! p = po !! p).
Proof.
  revert po. induction names as [|q names IH]; intros po Hg; cbn in Hg.
  - unfold ret in Hg. simplify_eq. split; [done|]. split; [done|].
    split; [by intros p ?%elem_of_nil|done].
  - destruct (find_component q m) as [[[v|e] bds]|] eqn:Hq; [|done|].
    + apply IH in Hg as (-> & -> & Hin & Hout). split; [done|]. split; [done|]. split.
      * intros p [->|Hp]%elem_of_cons; [|by apply Hin].
        destruct (decide (q ∈ names)) as [Hp|Hp]; [by apply Hin|].
        right. exists v, bds. rewrite (Hout q Hp). by rewrite lookup_insert_eq.
      * intros p [Hne Hp]%not_elem_of_cons. rewrite (Hout p Hp).
        by rewrite lookup_insert_ne.
    + apply IH in Hg as (-> & -> & Hin & Hout). split; [done|]. split; [done|]. split.
      * intros p [->|Hp]%elem_of_cons; [by left|by apply Hin].
      * intros p [Hne Hp]%not_elem_of_cons. by apply Hout.
Qed.

Lemma optima_raised names po m e m' tr :
  optima names po m = (Raised e, m', tr) →
  m' = m ∧ tr = [] ∧ ∃ p bds, p ∈ names ∧ find_component p m = Some (inr e, bds).
Proof.
  revert po. induction names as [|q names IH]; intros po Hg; cbn in Hg; [done|].
  destruct (find_component q m) as [[[v|e'] bds]|] eqn:Hq.
  - apply IH in Hg as (-> & -> & p & bds' & Hp & Hfc).
    split_and!; try done. exists p, bds'. split; [by apply elem_of_cons; right|done].
  - simplify_eq. split_and!; try done. exists q, bds.
    split; [by apply elem_of_cons; left|done].
  - apply IH in Hg as (-> & -> & p & bds' & Hp & Hfc).
    split_and!; try done. exists p, bds'. split; [by apply elem_of_cons; right|done].
Qed.

Lemma bounds_returned names pb m pb' m' tr :
  bounds names pb m = (Returned pb', m', tr) →
  m' = m ∧ tr = []
  ∧ (∀ p, p ∈ names → ∃ x bds, find_component p m = Some (x, bds) ∧ pb' !! p = Some bds)
  ∧ (∀ p, p ∉ names → pb' !! p = pb !! p).
Proof.
  revert pb. induction names as [|q names IH]; intros pb Hg; cbn in Hg.
  - unfold ret in Hg. simplify_eq. split; [done|]. split; [done|].
    split; [by intros p ?%elem_of_nil|done].
  - destruct (find_component q m) as [[x bds]|] eqn:Hq; [|done].
    apply IH in Hg as (-> & -> & Hin & Hout). split; [done|]. split; [done|]. split.
    + intros p [->|Hp]%elem_of_cons; [|by apply Hin].
      destruct (decide (q ∈ names)) as [Hp|Hp]; [by apply Hin|].
      exists x, bds. rewrite (Hout q Hp). by rewrite lookup_insert_eq.
    + intros p [Hne Hp]%not_elem_of_cons. rewrite (Hout p Hp).
      by rewrite lookup_insert_ne.
Qed.

Lemma bounds_raised names pb m e m' tr :
  bounds names pb m = (Raised e, m', tr) →
  m' = m ∧ tr = [] ∧ e = AttributeError "bounds"
  ∧ ∃ p, p ∈ names ∧ find_component p m = None.
Proof.
  revert pb. induction names as [|q names IH]; intros pb Hg; cbn in Hg; [done|].
  destruct (find_component q m) as [[x bds]|] eqn:Hq.
  - apply IH in Hg as (-> & -> & -> & p & Hp & Hnone).
    split_and!; try done. exists p. split; [by apply elem_of_cons; right|done].
  - simplify_eq. split_and!; try done. exists q. split; [by apply elem_of_cons; left|done].
Qed.

(** What the first two steps of the constructor leave when they
    return: no event but the solver call of [presolve]. *)
Lemma prepared dae presolve m m1 m2 e1 e2 :
  (if truthy dae && presolve then discretize dae else ret tt) m = (Returned tt, m1, e1) →
  (if presolve then initial_solve else ret tt) m1 = (Returned tt, m2, e2) →
  if presolve then e1 ++ e2 = [Solve true] else m2 = m ∧ e1 ++ e2 = [].
Proof.
  intros Hdae Hsolve. destruct presolve.
  - unfold initial_solve in Hsolve. destruct (solve m1); simplify_eq.
    assert (e1 = []) as ->; [|done].
    rewrite andb_true_r in Hdae. destruct (truthy dae).
    + unfold discretize, attempt in Hdae.
      split_matches Hdae; unfold raise in *; by simplify_eq.
    + unfold ret in Hdae. by simplify_eq.
  - rewrite andb_false_r in Hdae. unfold ret in *. by simplify_eq.
Qed.

(** The session the constructor returns. *)
Lemma init_returned pnames0 solver solver_kwds tee dae dae_kwds presolve m self m' tr :
  init pnames0 solver solver_kwds tee dae dae_kwds presolve m = (Returned self, m', tr) →
  pnames self = pnames0 ∧ attrs self = ∅
  ∧ first_objective m' = Some (inl (obj self))
  ∧ (∀ p, p ∈ pnames0 → ∃ v bds, find_component p m' = Some (inl v, bds)
                                 ∧ popt self !! p = Some v ∧ pbounds self !! p = Some bds)
  ∧ (∀ p, p ∉ pnames0 → popt self !! p = None ∧ pbounds self !! p = None)
  ∧ (if presolve then tr = [Solve true] else m' = m ∧ tr = []).
Proof.
  unfold init. intros Hi.
  apply bind_returned in Hi as ([] & m1 & e1 & e2 & Hdae & Hi & ->).
  apply bind_returned in Hi as ([] & m2 & e3 & e4 & Hsolve & Hi & ->).
  apply bind_returned in Hi as (o & m3 & e5 & e6 & Hobj & Hi & ->).
  apply bind_returned in Hi as (po & m4 & e7 & e8 & Hpo & Hi & ->).
  apply bind_returned in Hi as (pb & m5 & e9 & e10 & Hpb & Hi & ->).
  unfold ret in Hi. simplify_eq. cbn [pnames attrs obj popt pbounds].
  apply optima_returned in Hpo as (-> & -> & Hin & Hout).
  apply bounds_returned in Hpb as (-> & -> & Hbin & Hbout).
  unfold baseline in Hobj.
  destruct (first_objective m2) as [[o'|e']|] eqn:Ho; simplify_eq.
  split; [done|]. split; [done|]. split; [done|]. split.
  { intros p Hp. destruct (Hbin p Hp) as (x & bds & Hfc & Hb).
    destruct (Hin p Hp) as [Hnone|(v & bds' & Hfc' & Hv)]; [congruence|].
    exists v, bds. split; [congruence|done]. }
  split. { intros p Hp. rewrite (Hout p Hp), (Hbout p Hp). by rewrite !lookup_empty. }
  pose proof (prepared _ _ _ _ _ _ _ Hdae Hsolve) as Hprep.
  rewrite !app_nil_r. exact Hprep.
Qed.

(** X10. When the constructor returns, the session holds the names it
    was given and no attribute yet, its baseline is the model's first
    objective, and [popt] and [pbounds] have an entry for each name,
    read from the model as it is then, and for nothing else.  Without
    [presolve] the model is left as it was and the solver is not
    called; with it the solver has been called once. *)
Theorem X10_constructed pnames0 solver solver_kwds tee dae dae_kwds presolve m
    self m' tr :
  init pnames0 solver solver_kwds tee dae dae_kwds presolve m = (Returned self, m', tr) →
  pnames self = pnames0 ∧ attrs self = ∅
  ∧ first_objective m' = Some (inl (obj self))
  ∧ (∀ p, p ∈ pnames0 → ∃ v bds, find_component p m' = Some (inl v, bds)
                                 ∧ popt self !! p = Some v ∧ pbounds self !! p = Some bds)
  ∧ (∀ p, p ∉ pnames0 → popt self !! p = None ∧ pbounds self !! p = None)
  ∧ (if presolve then tr = [Solve true] else m' = m ∧ tr = []).
Proof. apply init_returned. Qed.

(** X11. The exceptions of the constructor: [TypeError] and
    [AttributeError] for a bad [dae] under [presolve], what the
    transformation raises when it is applied, the solver's exception
    when the first solve fails, [IndexError] when the model has no
    objective, what [value] raises on the objective or on a named
    component (a [ValueError] for a variable without a value), and
    [AttributeError] when a name does not resolve to a component of the
    model. *)
Theorem X11_constructor_exceptions pnames0 solver solver_kwds tee dae dae_kwds presolve m
    e m' tr :
  init pnames0 solver solver_kwds tee dae dae_kwds presolve m = (Raised e, m', tr) →
  (presolve = true ∧ truthy dae = true ∧ tr = []
   ∧ ((e = TypeError ∧ is_str dae = false ∧ m' = m)
      ∨ (e = AttributeError "apply_to" ∧ m' = m
         ∧ ∃ s, dae = PyStr s ∧ TransformationFactory ("dae." +:+ s) = None)
      ∨ (∃ s tfd, dae = PyStr s ∧ TransformationFactory ("dae." +:+ s) = Some tfd
                  ∧ tfd m = (m', Some e))))
  ∨ (presolve = true ∧ e = SolverException ∧ tr = [Solve false])
  ∨ (e = IndexError ∧ first_objective m' = None)
  ∨ (first_objective m' = Some (inr e))
  ∨ (∃ p bds, p ∈ pnames0 ∧ find_component p m' = Some (inr e, bds))
  ∨ (e = AttributeError "bounds" ∧ ∃ p, p ∈ pnames0 ∧ find_component p m' = None).
Proof.
  unfold init. intros Hi.
  apply bind_raised in Hi as [Hdae|([] & m1 & e1 & e2 & Hdae & Hi & ->)].
  { left. destruct (truthy dae && presolve) eqn:Hb; [|by unfold ret in Hdae].
    apply andb_prop in Hb as [Ht ->]. split; [done|]. split; [done|].
    unfold discretize in Hdae.
    destruct dae; unfold raise in Hdae; simplify_eq; try (split; [done|by left]).
    destruct (TransformationFactory _) as [tfd|] eqn:Htf.
    - unfold attempt in Hdae. destruct (tfd m) as [m1 [e1|]] eqn:Htfd; simplify_eq.
      split; [done|]. right. right. by eexists _, _.
    - unfold raise in Hdae. simplify_eq.
      split; [done|]. right. left. split; [done|]. split; [done|]. by eexists. }
  apply bind_raised in Hi as [Hsolve|([] & m2 & e3 & e4 & Hsolve & Hi & ->)].
  { right. left. destruct presolve; [|by unfold ret in Hsolve].
    unfold initial_solve in Hsolve. destruct (solve m1); simplify_eq.
    assert (e1 = []) as ->; [|done].
    rewrite andb_true_r in Hdae. destruct (truthy dae).
    - unfold discretize, attempt in Hdae.
      split_matches Hdae; unfold raise in *; by simplify_eq.
    - unfold ret in Hdae. by simplify_eq. }
  apply bind_raised in Hi as [Hobj|(o & m3 & e5 & e6 & Hobj & Hi & ->)].
  { right. right. unfold baseline in Hobj.
    destruct (first_objective m2) as [[o|e']|] eqn:Ho; simplify_eq.
    - right. by left.
    - by left. }
  unfold baseline in Hobj.
  destruct (first_objective m2) as [[o'|e']|] eqn:Ho; simplify_eq.
  apply bind_raised in Hi as [Hpo|(po & m4 & e7 & e8 & Hpo & Hi & ->)].
  { right. right. right. right. left.
    apply optima_raised in Hpo as (-> & -> & p & bds & Hp & Hfc). by exists p, bds. }
  apply optima_returned in Hpo as (-> & -> & _).
  apply bind_raised in Hi as [Hpb|(pb & m5 & e9 & e10 & Hpb & Hi & ->)].
  { right. right. right. right. right.
    by apply bounds_raised in Hpb as (-> & -> & -> & Hp). }
  by unfold ret in Hi.
Qed.

End InitFacts.

Section Together.
Context {Model : Type} `{!Pyomo Model} `{!Numerics}.

(** X12. On a session built by the constructor, [get_CI] raises
    nothing but [TypeError], the [KeyError] for [p_up_-1] or
    [p_down_-1] of a profiled parameter [p], and what [set_value]
    raises for a profiled parameter. *)
Theorem X12_get_CI_exceptions pnames0 solver solver_kwds tee dae dae_kwds presolve
    (m0 : Model) self m1 tr0 N alpha sf m e m' tr :
  init pnames0 solver solver_kwds tee dae dae_kwds presolve m0 = (Returned self, m1, tr0) →
  get_CI self N alpha sf m = (Raised e, m', tr) →
  e = TypeError
  ∨ (∃ p d, p ∈ pnames0 ∧ direction d ∧ e = KeyError (key p d (-1)))
  ∨ (∃ p x ma mb, p ∈ pnames0 ∧ set_value p x ma = (mb, Some e)).
Proof.
  intros Hi Hg. apply init_returned in Hi as (Hn & _ & _ & Hin & _).
  destruct (get_CI_raised self N alpha sf m e m' tr)
    as (p & Hp & [->|[(d & Hd & ->)|(x & ma & mb & Hset)]]);
    [|done|by left| |].
  - intros p Hp. rewrite Hn in Hp. destruct (Hin p Hp) as (v & bds & _ & -> & ->).
    by split.
  - right. left. exists p, d. by rewrite <- Hn.
  - right. right. exists p, x, ma, mb. by rewrite <- Hn.
Qed.

End Together.

(** ** Files *)

Section Files.
Context {File : Type} `{!Json File}.

(** The dictionary [to_json] collects: the loop stops at the first
    attribute that is missing. *)
Lemma collect_spec self :
  (∃ pre a post,
      atts = pre ++ a :: post
      ∧ (∀ b, b ∈ pre → is_Some (attrs self !! b))
      ∧ attrs self !! a = None
      ∧ collect self atts ∅ = Raised (AttributeError a))
  ∨ (∃ alpha parub parlb var_dict obj_dict,
        attrs self !! "alpha" = Some alpha
        ∧ attrs self !! "parub" = Some parub
        ∧ attrs self !! "parlb" = Some parlb
        ∧ attrs self !! "var_dict" = Some var_dict
        ∧ attrs self !! "obj_dict" = Some obj_dict
        ∧ collect self atts ∅
          = Returned (<["obj_dict" := obj_dict]>
                        (<["var_dict" := var_dict]>
                           (<["parlb" := parlb]>
                              (<["parub" := parub]> (<["alpha" := alpha]> ∅)))))).
Proof.
  unfold atts, collect, getattr.
  destruct (attrs self !! "alpha") as [v1|] eqn:H1.
  2:{ left. exists [], "alpha", ["parub"; "parlb"; "var_dict"; "obj_dict"].
      split; [done|]. split; [by intros b ?%elem_of_nil|done]. }
  destruct (attrs self !! "parub") as [v2|] eqn:H2.
  2:{ left. exists ["alpha"], "parub", ["parlb"; "var_dict"; "obj_dict"].
      split; [done|]. split; [|done]. intros b Hb. in_events Hb; by subst. }
  destruct (attrs self !! "parlb") as [v3|] eqn:H3.
  2:{ left. exists ["alpha"; "parub"], "parlb", ["var_dict"; "obj_dict"].
      split; [done|]. split; [|done]. intros b Hb. in_events Hb; by subst. }
  destruct (attrs self !! "var_dict") as [v4|] eqn:H4.
  2:{ left. exists ["alpha"; "parub"; "parlb"], "var_dict", ["obj_dict"].
      split; [done|]. split; [|done]. intros b Hb. in_events Hb; by subst. }
  destruct (attrs self !! "obj_dict") as [v5|] eqn:H5.
  2:{ left. exists ["alpha"; "parub"; "parlb"; "var_dict"], "obj_dict", [].
      split; [done|]. split; [|done]. intros b Hb. in_events Hb; by subst. }
  right. by exists v1, v2, v3, v4, v5.
Qed.

(** X13. [to_json] needs the five attributes [get_CI] sets.  It reads
    them in the order [alpha], [parub], [parlb], [var_dict],
    [obj_dict]: at the first one that is missing it raises
    [AttributeError] for it and leaves the files as they were.  With
    all five present it writes one document to the given path, the
    object of exactly these five keys with the values of the
    attributes, and touches no other file; [ctol] is not written. *)
Theorem X13_to_json self path (fs : gmap string File) r fs' :
  to_json self path fs = (r, fs') →
  (∃ pre a post,
      ["alpha"; "parub"; "parlb"; "var_dict"; "obj_dict"] = pre ++ a :: post
      ∧ (∀ b, b ∈ pre → is_Some (attrs self !! b))
      ∧ attrs self !! a = None
      ∧ r = Raised (AttributeError a) ∧ fs' = fs)
  ∨ (∃ alpha parub parlb var_dict obj_dict,
        attrs self !! "alpha" = Some alpha
        ∧ attrs self !! "parub" = Some parub
        ∧ attrs self !! "parlb" = Some parlb
        ∧ attrs self !! "var_dict" = Some var_dict
        ∧ attrs self !! "obj_dict" = Some obj_dict
        ∧ r = Returned tt
        ∧ fs' = <[path := json_dump
                    (PyDict (<["obj_dict" := obj_dict]>
                               (<["var_dict" := var_dict]>
                                  (<["parlb" := parlb]>
                                     (<["parub" := parub]>
                                        (<["alpha" := alpha]> ∅))))))]> fs).
Proof.
  unfold to_json. intros Ht.
  destruct (collect_spec self)
    as [(pre & a & post & Hsplit & Hpre & Hnone & Hc)
       |(v1 & v2 & v3 & v4 & v5 & H1 & H2 & H3 & H4 & H5 & Hc)];
    rewrite Hc in Ht; simplify_eq.
  - left. by exists pre, a, post.
  - right. by exists v1, v2, v3, v4, v5.
Qed.

Lemma load_fields self (sv_dict : gmap string pyval) :
  let self' := map_fold (fun att v self => setattr self att v) self sv_dict in
  pnames self' = pnames self ∧ obj self' = obj self
  ∧ popt self' = popt self ∧ pbounds self' = pbounds self.
Proof.
  apply (map_fold_weak_ind
           (fun r (d : gmap string pyval) =>
              pnames r = pnames self ∧ obj r = obj self
              ∧ popt r = popt self ∧ pbounds r = pbounds self)); [done|].
  intros att v d r _ IH. exact IH.
Qed.

(** The session [load_json] returns. *)
Lemma load_json_returned self path (fs : gmap string File) self' :
  load_json self path fs = Returned self' →
  ∃ f d, fs !! path = Some f ∧ json_load f = Some (PyDict d)
         ∧ (∀ k, is_Some (d !! k) → reserved k = false)
         ∧ attrs self' = d ∪ attrs self
         ∧ pnames self' = pnames self ∧ obj self' = obj self
         ∧ popt self' = popt self ∧ pbounds self' = pbounds self.
Proof.
  unfold load_json. intros Hl.
  destruct (fs !! path) as [f|] eqn:Hf; [|done].
  destruct (json_load f) as [[| | | | | |d]|] eqn:Hd; simplify_eq.
  destruct (decide (map_Forall _ d)) as [Hall|]; simplify_eq.
  exists f, d. split; [done|]. split; [done|]. split.
  { intros k [v Hk]. by apply (Hall k v). }
  split; [apply load_attrs|]. apply load_fields.
Qed.

(** X14. [load_json] returns only for a file that exists and holds a
    JSON object.  When none of the object's keys is reserved (none
    names an attribute of the constructor, a method or a name of
    Python's own), [load_json] returns and every key of the object has
    become an attribute of the session, also a key that is none of the
    five exported ones; an attribute the object does not mention is
    kept, and the parameter names, optimum, bounds and baseline of the
    session stay as they are. *)
Theorem X14_load_json self path (fs : gmap string File) :
  (∀ self', load_json self path fs = Returned self' →
            ∃ f d, fs !! path = Some f ∧ json_load f = Some (PyDict d))
  ∧ (∀ f d, fs !! path = Some f → json_load f = Some (PyDict d) →
            (∀ k, is_Some (d !! k) → reserved k = false) →
            ∃ self', load_json self path fs = Returned self'
                     ∧ (∀ k, attrs self' !! k = match d !! k with
                                                | Some v => Some v
                                                | None => attrs self !! k
                                                end)
                     ∧ pnames self' = pnames self ∧ obj self' = obj self
                     ∧ popt self' = popt self ∧ pbounds self' = pbounds self).
Proof.
  split.
  - intros self' Hl. apply load_json_returned in Hl as (f & d & Hf & Hd & _).
    by exists f, d.
  - intros f d Hf Hd Hres.
    assert (load_json self path fs
            = Returned (map_fold (fun att v self => setattr self att v) self d)) as Hl.
    { unfold load_json. rewrite Hf, Hd. apply decide_True.
      intros k v Hk. apply Hres. by exists v. }
    eexists. split; [exact Hl|]. split; [|apply load_fields].
    intros k. rewrite load_attrs, lookup_union.
    by destruct (d !! k), (attrs self !! k).
Qed.

Section Reload.
Context {Model : Type} `{!Pyomo Model} `{!Numerics}.

(** X15. Provided [json.load] reads back what [json.dump] wrote:
    after [to_json] on any session, [load_json] from that path on
    another session returns, and that session then has the [alpha],
    [parub], [parlb], [var_dict] and [obj_dict] of the first, value for
    value, while its [ctol] is what it was.  On a session that had no
    [ctol] of its own (one fresh from the constructor), [step_CI] for
    a known parameter then raises [AttributeError] before it calls the
    solver. *)
Theorem X15_reloaded_session self other path (fs fs' : gmap string File)
    pname dr sf (m : Model) :
  (∀ v, json_load (json_dump v) = Some v) →
  to_json self path fs = (Returned tt, fs') →
  ∃ other' alpha parub parlb var_dict obj_dict,
    load_json other path fs' = Returned other'
    ∧ attrs self !! "alpha" = Some alpha ∧ attrs other' !! "alpha" = Some alpha
    ∧ attrs self !! "parub" = Some parub ∧ attrs other' !! "parub" = Some parub
    ∧ attrs self !! "parlb" = Some parlb ∧ attrs other' !! "parlb" = Some parlb
    ∧ attrs self !! "var_dict" = Some var_dict
    ∧ attrs other' !! "var_dict" = Some var_dict
    ∧ attrs self !! "obj_dict" = Some obj_dict
    ∧ attrs other' !! "obj_dict" = Some obj_dict
    ∧ attrs other' !! "ctol" = attrs other !! "ctol"
    ∧ (attrs other !! "ctol" = None → is_Some (pbounds other !! pname) →
       step_CI other' pname dr sf m = (Raised (AttributeError "ctol"), m, [])).
Proof.
  intros Hrt Ht.
  unfold to_json in Ht.
  destruct (collect_spec self)
    as [(pre & a & post & Hsplit & Hpre & Hnone & Hc)
       |(v1 & v2 & v3 & v4 & v5 & H1 & H2 & H3 & H4 & H5 & Hc)];
    rewrite Hc in Ht; simplify_eq.
  set (d := <["obj_dict" := v5]> (<["var_dict" := v4]> (<["parlb" := v3]>
              (<["parub" := v2]> (<["alpha" := v1]> (∅ : gmap string pyval)))))).
  assert (map_Forall (fun att (_ : pyval) => reserved att = false) d) as Hall.
  { unfold d. repeat (apply map_Forall_insert_2; [reflexivity|]).
    apply map_Forall_empty. }
  assert (load_json other path (<[path := json_dump (PyDict d)]> fs)
          = Returned (map_fold (fun att v self => setattr self att v) other d)) as Hl.
  { unfold load_json. rewrite lookup_insert_eq, Hrt. by rewrite decide_True. }
  eexists _, v1, v2, v3, v4, v5. split; [exact Hl|].
  assert (∀ k, attrs (map_fold (fun att v self => setattr self att v) other d) !! k
               = match d !! k with Some v => Some v | None => attrs other !! k end) as Hk.
  { intros k. rewrite load_attrs, lookup_union.
    by destruct (d !! k), (attrs other !! k). }
  rewrite !Hk.
  do 10 (split; [first [done|by (unfold d; simplify_map_eq)]|]).
  split; [by (unfold d; simplify_map_eq)|].
  intros Hno [bds Hb]. unfold step_CI, make_frame, get_ctol.
  destruct (load_fields other d) as (_ & _ & _ & ->). rewrite Hb.
  rewrite Hk. unfold d. by simplify_map_eq.
Qed.

End Reload.

End Files.

(** ** The keys [plot_PL] selects *)

Lemma split_head_app p rest :
  split_head (p +:+ "_" +:+ rest) = split_head p.
Proof.
  induction p as [|a p IH]; [reflexivity|].
  change (split_head (String a (p +:+ "_" +:+ rest)) = split_head (String a p)).
  cbn [split_head]. destruct (Ascii.eqb a underscore); [done|]. by rewrite IH.
Qed.

Lemma split_head_idemp x : split_head (split_head x) = split_head x.
Proof.
  induction x as [|a x IH]; [done|]. cbn [split_head].
  destruct (Ascii.eqb a underscore) eqn:Ha; [done|]. cbn [split_head]. by rewrite Ha, IH.
Qed.

Lemma pkeys_spec pname (var_dict : gmap string float) k :
  k ∈ pkeys pname var_dict ↔ is_Some (var_dict !! k) ∧ split_head k = pname.
Proof.
  unfold pkeys. rewrite merge_sort_Permutation, list_elem_of_filter.
  rewrite list_elem_of_fmap. split.
  - intros [Hh ([k' v] & -> & Hin)]. apply elem_of_map_to_list in Hin. by eauto.
  - intros [[v Hv] Hh]. split; [done|]. exists (k, v). split; [done|].
    by apply elem_of_map_to_list.
Qed.

Global Instance string_le_total : Total string_le.
Proof. intros a b. apply String.leb_total. Qed.

(** X16. The keys [plot_PL] takes for a parameter are the keys of
    [var_dict] whose text before the first underscore is the
    parameter's name, in sorted order.  The key [p_dr_j] of a run is
    therefore taken for the name that [p] starts with up to its first
    underscore: a parameter whose own name contains an underscore gets
    no key at all, and its keys go to the parameter named like its
    first field. *)
Theorem X16_plot_keys pname (var_dict : gmap string float) :
  (∀ k, k ∈ pkeys pname var_dict ↔ is_Some (var_dict !! k) ∧ split_head k = pname)
  ∧ (∀ p dr j, key p dr j ∈ pkeys pname var_dict
               ↔ is_Some (var_dict !! key p dr j) ∧ split_head p = pname)
  ∧ (split_head pname ≠ pname → pkeys pname var_dict = [])
  ∧ Sorted string_le (pkeys pname var_dict).
Proof.
  split; [apply pkeys_spec|]. split; [|split].
  - intros p dr j. rewrite pkeys_spec. unfold key. by rewrite split_head_app.
  - intros Hne. destruct (pkeys pname var_dict) as [|k ks] eqn:Hk; [done|].
    assert (k ∈ pkeys pname var_dict) as Hin by (rewrite Hk; by apply elem_of_cons; left).
    apply pkeys_spec in Hin as [_ Hh]. destruct Hne.
    by rewrite <- Hh, split_head_idemp.
  - apply Sorted_merge_sort, _.
Qed.

(** ** The claims on concrete inputs *)

#[local] Existing Instance Toy.numerics.

Lemma triple_eta {A B C} (x : A * B * C) : x = (x.1.1, x.1.2, x.2).
Proof. by destruct x as [[??]?]. Qed.

(** The solver fails in pass 2 of a walk upwards (at [10.305]). *)
Lemma C1_witness :
  let x := Toy.run (Toy.flat_until 10.25) (None, None) 100 "up" in
  (0 < 2)%nat
  ∧ take 3 (solve_log x.2) = replicate 2 true ++ [false]
  ∧ ∃ v sd vd od,
      x.1.1 = Returned (Some (v, sd, vd, od))
      ∧ vd !! key "p" "up" (Z.of_nat 2 - 1) = Some v
      ∧ sd !! key "p" "up" (Z.of_nat 2) = None
      ∧ vd !! key "p" "up" (Z.of_nat 2) = None
      ∧ od !! key "p" "up" (Z.of_nat 2) = None
      ∧ solve_log x.2 = replicate 2 true ++ [false].
Proof.
  intros x. split; [lia|]. split; [by vm_compute|].
  apply (C1_failure_rolls_back _ _ _ _ _ _ _ _ 2 (triple_eta x)); [lia|by vm_compute].
Defined.

(** C2, against the claim: a budget of one step on a model whose
    objective is not called [obj].  The one solver call succeeds, no
    statistic is computed, so none exceeds the threshold, and no bound
    is crossed; yet the walk does not return [+inf]: reading
    [self.m.obj] raises inside the [try], and the [except] block, in
    its first pass, raises the [KeyError]. *)
Lemma C2_counterexample :
  let P := Toy.unnamed Toy.flat (None, None) in
  let x := @step_CI _ P Toy.numerics (configured (Toy.fitted 10 1 (None, None)) 1 0.05)
             "p" "up" 0.01 (Toy.Model 10 1) in
  (1 ≤ 1)%Z
  ∧ solve_log x.2 = replicate (Z.to_nat 1) true
  ∧ rows_below (chi2_isf 0.05 1) x.2 = true
  ∧ x.2 = [Solve true; Print ExnLine]
  ∧ x.1.1 = Raised (KeyError "p_up_-1")
  ∧ ∀ sd vd od, x.1.1 ≠ Returned (Some (infinity, sd, vd, od)).
Proof.
  intros P x.
  assert (x.1.1 = Raised (KeyError "p_up_-1")) as Hr by (vm_compute; reflexivity).
  split; [lia|]. split; [vm_compute; reflexivity|]. split; [vm_compute; reflexivity|].
  split; [vm_compute; reflexivity|]. split; [exact Hr|].
  intros sd vd od. rewrite Hr. discriminate.
Qed.

(** Three steps downwards on the flat objective exhaust the budget:
    three calls succeed, nothing is caught, the three statistics are
    zero, and the run returns [-inf]. *)
Lemma C2_witness :
  let x := Toy.run Toy.flat (None, None) 3 "down" in
  (1 ≤ 3)%Z
  ∧ (solves x.2 ≤ Z.to_nat 3)%nat
  ∧ solve_log x.2 = replicate (Z.to_nat 3) true
  ∧ uncaught x.2 = true
  ∧ rows_below (chi2_isf 0.05 1) x.2 = true
  ∧ ∃ sd vd od, x.1.1 = Returned (Some (neg_infinity, sd, vd, od)).
Proof.
  intros x. split; [lia|].
  destruct (C2_budget (Pyomo0 := Toy.pyomo Toy.flat (None, None))
              (Toy.fitted 10 1 (None, None)) 3 0.05 "p" "down" 0.01 (Toy.Model 10 1)
              x.1.1 x.1.2 x.2 ltac:(lia) (triple_eta x)) as [Hle Hinf].
  assert (solve_log x.2 = replicate (Z.to_nat 3) true) as H1 by (vm_compute; reflexivity).
  assert (uncaught x.2 = true) as H2 by (vm_compute; reflexivity).
  assert (rows_below (chi2_isf 0.05 1) x.2 = true) as H3 by (vm_compute; reflexivity).
  split; [exact Hle|]. split; [exact H1|]. split; [exact H2|]. split; [exact H3|].
  exact (Hinf H1 H2 H3).
Defined.

(** The first pass of a walk upwards on the flat objective: the solver
    succeeds at [10.1], the objective read is [1], and the pass prints
    the row of iteration [0] with the statistic [2 * (ln 1 - ln 1)]. *)
Lemma C4_witness :
  let P := Toy.pyomo Toy.flat (None, Some 10.5) in
  let c := Frame "p" "up" 10 10.5 0.01 100 3.841458820694124 1 in
  let l := init_locals c in
  Toy.frame_of (None, Some 10.5) "up" = Returned c
  ∧ loop_cond c l = true
  ∧ @solved _ P c l (Toy.Model 10 1) (Toy.Model 10.1 1) 1 10.1
  ∧ f_etol c = chi2_isf 0.05 1
  ∧ ∃ fl st evs,
      @iteration _ P Toy.numerics c l (Toy.Model 10 1)
      = (fl, Toy.Model 10.1 1,
         Solve true :: pprint "p" (i l) (2 * (log 1 - log 1)) (trial c l) st ++ evs)
      ∧ match fl with
        | Next l' =>
            (chi2_isf 0.05 1 <? 2 * (log 1 - log 1)) = false
            ∧ err l' = 2 * (log 1 - log 1)
            ∧ _obj_dict l' !! key "p" "up" (i l) = Some 1
            ∧ evs = []
        | Done r =>
            (∃ w sd vd od, r = Returned (Some (w, sd, vd, od))
                           ∧ od !! key "p" "up" (i l) = Some 1)
            ∧ ((chi2_isf 0.05 1 <? 2 * (log 1 - log 1)) = true
               ↔ converged_line "up" ∈ evs)
        end.
Proof.
  intros P c l.
  assert (Toy.frame_of (None, Some 10.5) "up" = Returned c) as Hf
    by (vm_compute; reflexivity).
  assert (loop_cond c l = true) as Hc by (vm_compute; reflexivity).
  assert (@solved _ P c l (Toy.Model 10 1) (Toy.Model 10.1 1) 1 10.1) as Hs.
  { exists (Toy.Model 10.1 1). repeat split; vm_compute; reflexivity. }
  split; [exact Hf|]. split; [exact Hc|]. split; [exact Hs|].
  exact (C4_error_statistic (Pyomo0 := P) (Toy.fitted 10 1 (None, Some 10.5)) 100 0.05
           "p" "up" 0.01 c (Toy.Model 10 1) l (Toy.Model 10 1) [] (Toy.Model 10.1 1) 1 10.1
           Hf (reach_start _ _ _) Hc Hs).
Defined.

(** The solver fails in the first pass (at [10.1]). *)
Lemma C8_witness :
  let x := Toy.run (Toy.flat_until 10.05) (None, None) 100 "up" in
  solve_log x.2 !! 0%nat = Some false
  ∧ x.1.1 = Raised (KeyError (key "p" "up" (-1)))
  ∧ x.2 = [Solve false; Print ExnLine].
Proof.
  intros x. split; [by vm_compute|].
  apply (C8_failure_at_iteration_0_raises _ _ _ _ _ _ _ _ (triple_eta x)).
  by vm_compute.
Defined.


(** C7, against the claim: without [presolve] a [dae] that is no string
    (here the number [5]), or a string the factory does not know, is
    accepted, and the session is built. *)
Lemma C7_counterexample :
  truthy (PyInt 5) = true ∧ is_str (PyInt 5) = false
  ∧ (∃ self, (Toy.construct (PyInt 5) false).1.1 = Returned self)
  ∧ truthy (PyStr "nope") = true
  ∧ TransformationFactory (Pyomo := Toy.pyomo Toy.flat (None, None)) "dae.nope" = None
  ∧ ∃ self, (Toy.construct (PyStr "nope") false).1.1 = Returned self.
Proof.
  split; [done|]. split; [done|]. split; [eexists; vm_compute; reflexivity|].
  split; [done|]. split; [done|]. eexists. vm_compute. reflexivity.
Qed.

(** With [presolve], the number [5] and the unknown name ["nope"]; the
    empty string, which counts as none; and the number [5] without
    [presolve]. *)
Lemma C7_witness :
  truthy (PyInt 5) = true ∧ truthy (PyStr "nope") = true ∧ truthy (PyStr "") = false
  ∧ Toy.construct (PyInt 5) true = (Raised TypeError, Toy.Model 10 1, [])
  ∧ Toy.construct (PyStr "nope") true
    = (Raised (AttributeError "apply_to"), Toy.Model 10 1, [])
  ∧ Toy.construct (PyStr "") true = Toy.construct PyNone true
  ∧ Toy.construct (PyInt 5) false = Toy.construct PyNone false.
Proof.
  split; [done|]. split; [done|]. split; [done|].
  destruct (C7_bad_dae_with_presolve (Pyomo0 := Toy.pyomo Toy.flat (None, None))
              ["p"] "ipopt" ∅ false (PyInt 5) ∅ (Toy.Model 10 1)) as (H5 & _ & Hany).
  destruct (C7_bad_dae_with_presolve (Pyomo0 := Toy.pyomo Toy.flat (None, None))
              ["p"] "ipopt" ∅ false (PyStr "nope") ∅ (Toy.Model 10 1)) as (Hnope & _ & _).
  destruct (C7_bad_dae_with_presolve (Pyomo0 := Toy.pyomo Toy.flat (None, None))
              ["p"] "ipopt" ∅ false (PyStr "") ∅ (Toy.Model 10 1)) as (_ & Hempty & _).
  split; [by apply (H5 eq_refl)|].
  split; [by apply (proj2 (Hnope eq_refl) "nope")|].
  split; [by apply Hempty|]. apply Hany.
Defined.

(** The intervals of the flat objective, written and read back. *)
Lemma C6_witness :
  ∃ res self', Toy.intervals.1.1 = Returned (res, self')
  ∧ ∃ fs' fresh' parub parlb var_dict obj_dict,
      @to_json _ Toy.json self' "ci.json" ∅ = (Returned tt, fs')
      ∧ @load_json _ Toy.json (Toy.fitted 10 1 (None, None)) "ci.json" fs' = Returned fresh'
      ∧ attrs self' !! "alpha" = Some (PyFloat 0.05)
      ∧ attrs self' !! "parub" = Some parub
      ∧ attrs self' !! "parlb" = Some parlb
      ∧ attrs self' !! "var_dict" = Some var_dict
      ∧ attrs self' !! "obj_dict" = Some obj_dict
      ∧ attrs fresh' !! "alpha" = Some (PyFloat 0.05)
      ∧ attrs fresh' !! "parub" = Some parub
      ∧ attrs fresh' !! "parlb" = Some parlb
      ∧ attrs fresh' !! "var_dict" = Some var_dict
      ∧ attrs fresh' !! "obj_dict" = Some obj_dict.
Proof.
  assert (match Toy.intervals.1.1 with Returned _ => true | _ => false end = true) as Hb
    by (vm_compute; reflexivity).
  destruct Toy.intervals.1.1 as [[res self']|e|] eqn:Hr; try discriminate Hb.
  exists res, self'. split; [reflexivity|].
  pose proof (triple_eta Toy.intervals) as Hx. rewrite Hr in Hx.
  exact (C6_json_round_trip (Json0 := Toy.json)
           (Pyomo0 := Toy.pyomo Toy.flat (Some 9, Some 11))
           (Toy.fitted 10 1 (Some 9, Some 11)) 3 0.05 0.01 (Toy.Model 10 1)
           res self' Toy.intervals.1.2 Toy.intervals.2
           (Toy.fitted 10 1 (None, None)) "ci.json" ∅ (fun v => eq_refl) Hx).
Defined.

(** C9, against the claim: on the flat objective the logarithms of two
    consecutive objective values are both zero, so in pass 1 of the walk
    downwards [d] is [0/(-0)], which is NaN; the comparison [d <= 0.01]
    fails and the step fraction is reset to [-0.01] instead of growing
    to [1.05 * (-0.0105)]. *)
Lemma C9_counterexample :
  let c := Toy.down_frame in
  let l := Toy.after_first_pass in
  Toy.frame_of (None, None) "down" = Returned c
  ∧ @reach _ (Toy.pyomo Toy.flat (None, None)) Toy.numerics c (init_locals c)
      (Toy.Model 10 1) l Toy.first_pass.1.2 Toy.first_pass.2
  ∧ i l = 1%Z
  ∧ ∃ d, @progress Toy.numerics (recorded_obj c l 1) (f_pname c) (f_dr c) (i l)
           (error_statistic 1 (f_obj_CI c)) (stepfrac l) = Some d
         ∧ (d <=? 0.01) = false
         ∧ adapt d (stepfrac l) (f_def_SF c) = -0.01
         ∧ 1.05 * stepfrac l = -0.011025000000000002.
Proof.
  intros c l. split; [by vm_compute|]. split.
  { apply (reach_pass _ _ _ _ _ [] _ _ _ (reach_start _ _ _)); by vm_compute. }
  split; [by vm_compute|]. exists nan. by vm_compute.
Qed.

(** Pass 1 of the walk downwards on an objective that rises from [2]
    to [4]: [d] is [-100], the step fraction grows from [-0.01] to
    [-0.0105], and pass 2 starts with the grown fraction. *)
Lemma C9_witness :
  let P := Toy.pyomo Toy.rising (None, None) in
  let c := Toy.down_frame in
  let l := Toy.after_rising_pass in
  let m := Toy.rising_pass.1.2 in
  Toy.frame_of (None, None) "down" = Returned c
  ∧ is_up "down" = false ∧ (0 <? 0.01) = true ∧ (0 < i l)%Z
  ∧ @solved _ P c l m (Toy.Model 9.8000000000000007 4) 4 9.8000000000000007
  ∧ @progress Toy.numerics (recorded_obj c l 4) "p" "down" 1
      (error_statistic 4 1) (-0.01) = Some (-100)
  ∧ (-100 =? -100) = true
  ∧ (-100 <=? 0.01) = true
  ∧ adapt (-100) (-0.01) (-0.01) = 1.05 * -0.01
  ∧ 1.05 * -0.01 = -0.010500000000000001
  ∧ ∃ l' evs,
      @iteration _ P Toy.numerics c l m
      = (Next l', Toy.Model 9.8000000000000007 4,
         Solve true
         :: pprint "p" 1 (error_statistic 4 1) 9.8000000000000007
              (1.05 * -0.01 * 10) ++ evs)
      ∧ stepfrac l' = 1.05 * -0.01.
Proof.
  intros P c l m.
  assert (Toy.frame_of (None, None) "down" = Returned c) as Hf by (vm_compute; reflexivity).
  assert ((0 < i l)%Z) as Hi by (vm_compute; reflexivity).
  assert (@solved _ P c l m (Toy.Model 9.8000000000000007 4) 4 9.8000000000000007) as Hs.
  { exists (Toy.Model 9.8000000000000007 2). repeat split; vm_compute; reflexivity. }
  assert (@progress Toy.numerics (recorded_obj c l 4) (f_pname c) (f_dr c) (i l)
            (error_statistic 4 (f_obj_CI c)) (stepfrac l) = Some (-100)) as Hd
    by (vm_compute; reflexivity).
  assert (@reach _ P Toy.numerics c (init_locals c) (Toy.Model 10 1) l m
            Toy.rising_pass.2) as Hr.
  { apply (reach_pass _ _ _ _ _ [] _ _ _ (reach_start _ _ _)); vm_compute; reflexivity. }
  assert (match (@iteration _ P Toy.numerics c l m).1.1 with
          | Next _ => true
          | Done _ => false
          end = true) as Hb by (vm_compute; reflexivity).
  split; [exact Hf|]. split; [reflexivity|]. split; [vm_compute; reflexivity|].
  split; [exact Hi|]. split; [exact Hs|]. split; [exact Hd|].
  split; [vm_compute; reflexivity|].
  destruct (C9_downward_step_growth (Pyomo0 := P)
              (Toy.session 10 1 (None, None) 100) "p" "down" 0.01 c (Toy.Model 10 1)
              l m Toy.rising_pass.2 (Toy.Model 9.8000000000000007 4) 4
              9.8000000000000007 (-100)
              Hf eq_refl eq_refl Hr Hi Hs Hd eq_refl) as (Hle & Hgrow & fl & evs & Hit & Hnext).
  split; [exact Hle|]. split; [exact Hgrow|]. split; [vm_compute; reflexivity|].
  rewrite Hit in Hb. cbn in Hb. destruct fl as [l'|r]; [|discriminate Hb].
  exists l', evs. split; [exact Hit|]. exact (Hnext l' eq_refl).
Defined.

(** C3, on the code: walking up from [10] towards the declared upper
    bound [10.5], the run ends with the bound reached and returns
    [10.505], a value beyond the bound.  The test compares [nextdr],
    which starts at the optimum and not one step ahead of it, so it
    fires one pass after the bound has been passed. *)
Lemma C3_bound_overshoot :
  let x := Toy.run Toy.flat (None, Some 10.5) 100 "up" in
  Print (Text "Reached parameter upper bound!") ∈ x.2
  ∧ ∃ v sd vd od,
      x.1.1 = Returned (Some (v, sd, vd, od))
      ∧ v = 10.505000000000001
      ∧ (10.5 <? v) = true.
Proof.
  intros x. split.
  - assert (x.2 !! 11%nat = Some (Print (Text "Reached parameter upper bound!"))) as Hin
      by (by vm_compute).
    by apply list_elem_of_lookup_2 in Hin.
  - eexists _, _, _, _. split; [by vm_compute|]. split; by vm_compute.
Qed.

(** ** The further properties on concrete inputs *)

(** Three steps downwards on the flat objective: three rows, three
    keys. *)
Lemma X1_witness :
  let x := Toy.run Toy.flat (None, None) 3 "down" in
  ∃ v sd vd od,
    x.1.1 = Returned (Some (v, sd, vd, od))
    ∧ rows x.2 = 3%nat
    ∧ sd = ∅
    ∧ ∀ k, (is_Some (vd !! k) ↔ is_Some (od !! k))
           ∧ (is_Some (vd !! k)
              ↔ ∃ j, (0 ≤ j < Z.of_nat (rows x.2))%Z ∧ k = key "p" "down" j).
Proof.
  intros x.
  assert (match x.1.1 with Returned (Some _) => true | _ => false end = true) as Hb
    by (vm_compute; reflexivity).
  destruct x.1.1 as [[[[[v sd] vd] od]|]|e|] eqn:Hr; try discriminate Hb.
  exists v, sd, vd, od. split; [reflexivity|]. split; [vm_compute; reflexivity|].
  apply (X1_returned_dictionaries (Pyomo0 := Toy.pyomo Toy.flat (None, None))
           (Toy.session 10 1 (None, None) 3) "p" "down" 0.01 (Toy.Model 10 1)
           v sd vd od x.1.2 x.2).
  pose proof (triple_eta x) as Hx. rewrite Hr in Hx. exact Hx.
Defined.

(** A model whose objective is not called [obj]: the first solver call
    succeeds, reading the objective raises inside the [try], and the
    handler raises the [KeyError]. *)
Lemma X2_witness :
  let P := Toy.unnamed Toy.flat (None, None) in
  let x := @step_CI _ P Toy.numerics (Toy.session 10 1 (None, None) 100) "p" "up" 0.01
             (Toy.Model 10 1) in
  Toy.frame_of (None, None) "up"
  = Returned (Frame "p" "up" 10 infinity 0.01 100 3.841458820694124 1)
  ∧ x = (Raised (KeyError "p_up_-1"), Toy.Model 10.1 1, [Solve true; Print ExnLine])
  ∧ KeyError "p_up_-1" = KeyError (key "p" "up" (-1))
  ∧ ∃ ok, x.2 = [Solve ok; Print ExnLine].
Proof.
  intros P x.
  assert (Toy.frame_of (None, None) "up"
          = Returned (Frame "p" "up" 10 infinity 0.01 100 3.841458820694124 1)) as Hf
    by (vm_compute; reflexivity).
  assert (x = (Raised (KeyError "p_up_-1"), Toy.Model 10.1 1,
               [Solve true; Print ExnLine])) as Hx by (vm_compute; reflexivity).
  split; [exact Hf|]. split; [exact Hx|].
  destruct (X2_only_exception (Pyomo0 := P)
              (Toy.session 10 1 (None, None) 100) "p" "up" 0.01 (Toy.Model 10 1)
              (Frame "p" "up" 10 infinity 0.01 100 3.841458820694124 1)
              (KeyError "p_up_-1") (Toy.Model 10.1 1) [Solve true; Print ExnLine] Hf Hx)
    as [(v & m0 & _ & Hno & _)|[He Hok]].
  - destruct Hno. apply elem_of_cons. right. apply elem_of_cons. by left.
  - split; [exact He|]. rewrite Hx. exact Hok.
Defined.

(** A budget of no step, and an optimum that lies on the upper bound. *)
Lemma X3_witness :
  (0 ≤ 0)%Z
  ∧ Toy.run Toy.flat (None, None) 0 "up" = (Returned None, Toy.Model 10 1, [])
  ∧ crosses "up" (10 - bd_eps "up") 9.5 = true
  ∧ Toy.run Toy.flat (None, Some 9.5) 100 "up" = (Returned None, Toy.Model 10 1, []).
Proof.
  split; [lia|]. split; [|split; [by vm_compute|]].
  - apply (X3_loop_not_entered (Pyomo0 := Toy.pyomo Toy.flat (None, None))
             (Toy.session 10 1 (None, None) 0) "p" "up" 0.01 (Toy.Model 10 1)
             (Frame "p" "up" 10 infinity 0.01 0 3.841458820694124 1)).
    + by vm_compute.
    + left. cbn. lia.
  - apply (X3_loop_not_entered (Pyomo0 := Toy.pyomo Toy.flat (None, Some 9.5))
             (Toy.session 10 1 (None, Some 9.5) 100) "p" "up" 0.01 (Toy.Model 10 1)
             (Frame "p" "up" 10 9.5 0.01 100 3.841458820694124 1)).
    + by vm_compute.
    + right. by vm_compute.
Defined.

(** The solver fails in pass 2 of a walk upwards: the run has printed
    two rows and ends with the error lines and the value of pass 1. *)
Lemma X4_witness :
  let x := Toy.run (Toy.flat_until 10.25) (None, None) 100 "up" in
  ∃ sd vd od tr0 ok,
    x.1.1 = Returned (Some (10.205, sd, vd, od))
    ∧ (∀ s, Print (Text s) ∉ tr0)
    ∧ x.2 = tr0 ++ [Solve ok; Print ExnLine; Print (Text "Error occured!");
                    Print (SetLine "UB" 10.205)]
    ∧ rows tr0 = 2%nat
    ∧ vd !! key "p" "up" 1 = Some 10.205.
Proof.
  intros x.
  pose proof (X4_status_lines (Pyomo0 := Toy.pyomo (Toy.flat_until 10.25) (None, None))
                (Toy.session 10 1 (None, None) 100) "p" "up" 0.01 (Toy.Model 10 1)
                x.1.1 x.1.2 x.2 (triple_eta x)) as Hst.
  assert (match x.1.1 with Returned (Some _) => true | _ => false end = true) as Hb
    by (vm_compute; reflexivity).
  assert (last x.2 = Some (Print (SetLine "UB" 10.205))) as Hlast
    by (vm_compute; reflexivity).
  assert (rows x.2 = 2%nat) as Hrows by (vm_compute; reflexivity).
  destruct x.1.1 as [[[[[v sd] vd] od]|]|e|]; try discriminate Hb.
  destruct Hst as (tr0 & e & pv & st & ok & Hnt & [Htr|[[Htr _]|[Htr|(Htr & _ & Hv)]]]);
    rewrite Htr, last_app in Hlast; cbn in Hlast; try discriminate Hlast.
  assert (v = 10.205) as -> by (by injection Hlast).
  assert (rows tr0 = 2%nat) as Hr0.
  { rewrite Htr, rows_app in Hrows.
    assert (rows [Solve ok; Print ExnLine; error_line; Print (SetLine (dB "up") 10.205)]
            = 0%nat) as Hz by reflexivity.
    rewrite Hz in Hrows. lia. }
  rewrite Hr0 in Hv.
  exists sd, vd, od, tr0, ok. split; [reflexivity|]. split; [exact Hnt|].
  split; [exact Htr|]. split; [exact Hr0|]. exact Hv.
Defined.

(** An objective of [-1] and a budget of one step: the statistic of the
    only pass is NaN, and the walk returns [+inf]. *)
Lemma X5_witness :
  let x := Toy.run (fun _ => Some (-1)) (None, None) 1 "up" in
  let c := Frame "p" "up" 10 infinity 0.01 1 3.841458820694124 1 in
  @make_frame Toy.numerics (Toy.session 10 1 (None, None) 1) "p" "up" 0.01 = Returned c
  ∧ x.2 !! 2%nat = Some (Print (IterRow 0 nan 10.1 0.1 "p"))
  ∧ ∃ tr0 tail,
      x.2 = tr0 ++ [Print (IterRow 0 nan 10.1 0.1 "p")] ++ tail
      ∧ 0%Z = Z.of_nat (rows tr0)
      ∧ (converged_line "up" ∉ x.2)
      ∧ tail = [budget_line]
      ∧ ∃ sd vd od, x.1.1 = Returned (Some (infinity, sd, vd, od)).
Proof.
  intros x c.
  assert (@make_frame Toy.numerics (Toy.session 10 1 (None, None) 1) "p" "up" 0.01
          = Returned c) as Hf by (vm_compute; reflexivity).
  assert (x.2 !! 2%nat = Some (Print (IterRow 0 nan 10.1 0.1 "p"))) as Hrow
    by (vm_compute; reflexivity).
  split; [exact Hf|]. split; [exact Hrow|].
  destruct (X5_nan_statistic (Pyomo0 := Toy.pyomo (fun _ => Some (-1)) (None, None))
              (Toy.session 10 1 (None, None) 1) "p" "up" 0.01 (Toy.Model 10 1) c
              x.1.1 x.1.2 x.2 0 10.1 0.1 "p" Hf (triple_eta x)
              (list_elem_of_lookup_2 _ _ _ Hrow))
    as (tr0 & tail & Htr & Hj & Hnc & Hcase).
  exists tr0, tail. split; [exact Htr|]. split; [exact Hj|]. split; [exact Hnc|].
  exact Hcase.
Defined.

(** The intervals of the flat objective, with both bounds declared. *)
Lemma X7_witness :
  ∃ res self', Toy.intervals.1.1 = Returned (res, self')
  ∧ ∀ p, p ∈ ["p"] →
         ∃ lb ub, pbounds (Toy.fitted 10 1 (Some 9, Some 11)) !! p = Some (Some lb, Some ub).
Proof.
  assert (match Toy.intervals.1.1 with Returned _ => true | _ => false end = true) as Hb
    by (vm_compute; reflexivity).
  destruct Toy.intervals.1.1 as [[res self']|e|] eqn:Hr; try discriminate Hb.
  exists res, self'. split; [reflexivity|].
  apply (X7_needs_both_bounds (Pyomo0 := Toy.pyomo Toy.flat (Some 9, Some 11))
           (Toy.fitted 10 1 (Some 9, Some 11)) 3 0.05 0.01 (Toy.Model 10 1)
           res self' Toy.intervals.1.2 Toy.intervals.2).
  pose proof (triple_eta Toy.intervals) as Hx. rewrite Hr in Hx. exact Hx.
Defined.

(** The same intervals: the returned dictionary. *)
Lemma X8_witness :
  let self := Toy.fitted 10 1 (Some 9, Some 11) in
  ∃ res self', Toy.intervals.1.1 = Returned (res, self')
  ∧ ∃ lbs ubs,
      res = {[ "Lower Bound" := lbs; "Upper Bound" := ubs ]}
      ∧ (∀ k, is_Some (res !! k) ↔ k = "Lower Bound" ∨ k = "Upper Bound")
      ∧ (∀ p, is_Some (lbs !! p) ↔ is_Some (popt self !! p) ∨ p ∈ pnames self)
      ∧ (∀ p, is_Some (ubs !! p) ↔ is_Some (popt self !! p) ∨ p ∈ pnames self)
      ∧ (∀ p, p ∉ pnames self → lbs !! p = popt self !! p ∧ ubs !! p = popt self !! p)
      ∧ attrs self' !! "parlb" = Some (float_dict lbs)
      ∧ attrs self' !! "parub" = Some (float_dict ubs).
Proof.
  intros self.
  assert (match Toy.intervals.1.1 with Returned _ => true | _ => false end = true) as Hb
    by (vm_compute; reflexivity).
  destruct Toy.intervals.1.1 as [[res self']|e|] eqn:Hr; try discriminate Hb.
  exists res, self'. split; [reflexivity|].
  apply (X8_returned_dictionary (Pyomo0 := Toy.pyomo Toy.flat (Some 9, Some 11))
           self 3 0.05 0.01 (Toy.Model 10 1) res self' Toy.intervals.1.2 Toy.intervals.2).
  pose proof (triple_eta Toy.intervals) as Hx. rewrite Hr in Hx. exact Hx.
Defined.

(** The same intervals: the trajectories kept on the session. *)
Lemma X9_witness :
  ∃ res self', Toy.intervals.1.1 = Returned (res, self')
  ∧ ∃ vd od : gmap string float,
      attrs self' !! "var_dict" = Some (float_dict vd)
      ∧ attrs self' !! "obj_dict" = Some (float_dict od)
      ∧ ∀ k, (is_Some (vd !! k) ↔ is_Some (od !! k))
             ∧ (is_Some (vd !! k) →
                ∃ p d j, p ∈ ["p"] ∧ direction d ∧ (0 ≤ j)%Z ∧ k = key p d j).
Proof.
  assert (match Toy.intervals.1.1 with Returned _ => true | _ => false end = true) as Hb
    by (vm_compute; reflexivity).
  destruct Toy.intervals.1.1 as [[res self']|e|] eqn:Hr; try discriminate Hb.
  exists res, self'. split; [reflexivity|].
  apply (X9_trajectory_keys (Pyomo0 := Toy.pyomo Toy.flat (Some 9, Some 11))
           (Toy.fitted 10 1 (Some 9, Some 11)) 3 0.05 0.01 (Toy.Model 10 1)
           res self' Toy.intervals.1.2 Toy.intervals.2).
  pose proof (triple_eta Toy.intervals) as Hx. rewrite Hr in Hx. exact Hx.
Defined.

(** The constructor with a discretization and [presolve]. *)
Lemma X10_witness :
  let x := Toy.construct (PyStr "finite_difference") true in
  ∃ self, x.1.1 = Returned self
  ∧ pnames self = ["p"] ∧ attrs self = ∅
  ∧ first_objective (Pyomo := Toy.pyomo Toy.flat (None, None)) x.1.2
    = Some (inl (obj self))
  ∧ (∀ p, p ∈ ["p"] →
          ∃ v bds, find_component (Pyomo := Toy.pyomo Toy.flat (None, None)) p x.1.2
                   = Some (inl v, bds)
                   ∧ popt self !! p = Some v ∧ pbounds self !! p = Some bds)
  ∧ (∀ p, p ∉ ["p"] → popt self !! p = None ∧ pbounds self !! p = None)
  ∧ x.2 = [Solve true].
Proof.
  intros x.
  assert (match x.1.1 with Returned _ => true | _ => false end = true) as Hb
    by (vm_compute; reflexivity).
  destruct x.1.1 as [self|e|] eqn:Hr; try discriminate Hb.
  exists self. split; [reflexivity|].
  apply (X10_constructed (Pyomo0 := Toy.pyomo Toy.flat (None, None))
           ["p"] "ipopt" ∅ false (PyStr "finite_difference") ∅ true (Toy.Model 10 1)
           self x.1.2 x.2).
  pose proof (triple_eta x) as Hx. rewrite Hr in Hx. exact Hx.
Defined.

(** The constructor with [presolve] on a model the solver fails on. *)
Lemma X11_witness :
  let P := Toy.pyomo (fun _ => None) (None, None) in
  let x := @init _ P ["p"] "ipopt" ∅ false PyNone ∅ true (Toy.Model 10 1) in
  x.1.1 = Raised SolverException
  ∧ x.1.2 = Toy.Model 10 1
  ∧ x.2 = [Solve false].
Proof.
  intros P x.
  assert (x.1.1 = Raised SolverException) as Hr by (vm_compute; reflexivity).
  assert (x.1.2 = Toy.Model 10 1) as Hm by (vm_compute; reflexivity).
  split; [exact Hr|]. split; [exact Hm|].
  pose proof (triple_eta x) as Hx. rewrite Hr in Hx.
  destruct (X11_constructor_exceptions (Pyomo0 := P)
              ["p"] "ipopt" ∅ false PyNone ∅ true (Toy.Model 10 1)
              SolverException x.1.2 x.2 Hx)
    as [(_ & Ht & _)|[(_ & _ & Htr)|[[He _]|[Ho|[(p & bds & _ & Hc)|[He _]]]]]].
  - discriminate Ht.
  - exact Htr.
  - discriminate He.
  - rewrite Hm in Ho. discriminate Ho.
  - rewrite Hm in Hc. discriminate Hc.
  - discriminate He.
Defined.

(** A session from the constructor, and [get_CI] on a model the solver
    fails on above [10.05]: the walk upwards fails in its first pass. *)
Lemma X12_witness :
  let P := Toy.pyomo (Toy.flat_until 10.05) (Some 9, Some 11) in
  let self := Toy.fitted 10 1 (Some 9, Some 11) in
  let x := @get_CI _ P Toy.numerics self 3 0.05 0.01 (Toy.Model 10 1) in
  @init _ P ["p"] "ipopt" ∅ false PyNone ∅ false (Toy.Model 10 1)
  = (Returned self, Toy.Model 10 1, [])
  ∧ x.1.1 = Raised (KeyError "p_up_-1")
  ∧ ∃ p d, p ∈ ["p"] ∧ direction d ∧ KeyError "p_up_-1" = KeyError (key p d (-1)).
Proof.
  intros P self x.
  assert (@init _ P ["p"] "ipopt" ∅ false PyNone ∅ false (Toy.Model 10 1)
          = (Returned self, Toy.Model 10 1, [])) as Hi by (vm_compute; reflexivity).
  assert (x.1.1 = Raised (KeyError "p_up_-1")) as Hr by (vm_compute; reflexivity).
  split; [exact Hi|]. split; [exact Hr|].
  pose proof (triple_eta x) as Hx. rewrite Hr in Hx.
  destruct (X12_get_CI_exceptions (Pyomo0 := P) ["p"] "ipopt" ∅ false PyNone ∅ false
              (Toy.Model 10 1) self (Toy.Model 10 1) [] 3 0.05 0.01 (Toy.Model 10 1)
              (KeyError "p_up_-1") x.1.2 x.2 Hi Hx)
    as [He|[Hkey|(p & v & ma & mb & _ & Hset)]].
  - discriminate He.
  - exact Hkey.
  - discriminate Hset.
Defined.

(** [to_json] on a session that has [alpha] and nothing else: the
    first missing attribute is [parub], and no file is written. *)
Lemma X13_witness :
  let self := setattr (Toy.fitted 10 1 (None, None)) "alpha" (PyFloat 0.05) in
  let x := @to_json _ Toy.json self "ci.json" ∅ in
  x.1 = Raised (AttributeError "parub")
  ∧ ∃ pre post,
      ["alpha"; "parub"; "parlb"; "var_dict"; "obj_dict"] = pre ++ "parub" :: post
      ∧ (∀ b, b ∈ pre → is_Some (attrs self !! b))
      ∧ attrs self !! "parub" = None
      ∧ x.2 = ∅.
Proof.
  intros self x.
  assert (x.1 = Raised (AttributeError "parub")) as Hr by (vm_compute; reflexivity).
  split; [exact Hr|].
  destruct (X13_to_json (Json0 := Toy.json) self "ci.json" ∅ x.1 x.2
              (surjective_pairing x))
    as [(pre & a & post & Hsplit & Hpre & Hnone & Ha & Hfs)
       |(v1 & v2 & v3 & v4 & v5 & _ & _ & _ & _ & _ & Hret & _)].
  - rewrite Hr in Ha. injection Ha as <-. by exists pre, post.
  - rewrite Hr in Hret. discriminate Hret.
Defined.

(** A file whose object has one key, which is none of the exported
    five and not reserved. *)
Lemma X14_witness :
  let self := Toy.fitted 10 1 (None, None) in
  let d : gmap string pyval := {[ "note" := PyInt 1 ]} in
  let fs : gmap string pyval := {[ "ci.json" := PyDict d ]} in
  fs !! "ci.json" = Some (PyDict d)
  ∧ json_load (Json := Toy.json) (PyDict d) = Some (PyDict d)
  ∧ (∀ k, is_Some (d !! k) → reserved k = false)
  ∧ ∃ self', @load_json _ Toy.json self "ci.json" fs = Returned self'
             ∧ attrs self' !! "note" = Some (PyInt 1)
             ∧ attrs self' !! "alpha" = None
             ∧ pnames self' = ["p"] ∧ obj self' = 1
             ∧ popt self' = popt self ∧ pbounds self' = pbounds self.
Proof.
  intros self d fs.
  assert (fs !! "ci.json" = Some (PyDict d)) as Hf by (vm_compute; reflexivity).
  assert (∀ k, is_Some (d !! k) → reserved k = false) as Hres.
  { intros k [v Hk]. apply lookup_singleton_Some in Hk as [<- _]. reflexivity. }
  split; [exact Hf|]. split; [reflexivity|]. split; [exact Hres|].
  destruct (proj2 (X14_load_json (Json0 := Toy.json) self "ci.json" fs)
              (PyDict d) d Hf eq_refl Hres)
    as (self' & Hl & Ha & Hn & Ho & Hp & Hb).
  exists self'. split; [exact Hl|].
  split; [rewrite Ha; vm_compute; reflexivity|].
  split; [rewrite Ha; vm_compute; reflexivity|].
  split; [exact Hn|]. split; [exact Ho|]. split; [exact Hp|]. exact Hb.
Defined.

(** The intervals of the flat objective, written, read into a fresh
    session, and a walk on that session. *)
Lemma X15_witness :
  let other := Toy.fitted 10 1 (None, None) in
  ∃ res self' fs',
    Toy.intervals.1.1 = Returned (res, self')
    ∧ @to_json _ Toy.json self' "ci.json" ∅ = (Returned tt, fs')
    ∧ attrs other !! "ctol" = None
    ∧ is_Some (pbounds other !! "p")
    ∧ ∃ other' alpha parub parlb var_dict obj_dict,
        @load_json _ Toy.json other "ci.json" fs' = Returned other'
        ∧ attrs self' !! "alpha" = Some alpha ∧ attrs other' !! "alpha" = Some alpha
        ∧ attrs self' !! "parub" = Some parub ∧ attrs other' !! "parub" = Some parub
        ∧ attrs self' !! "parlb" = Some parlb ∧ attrs other' !! "parlb" = Some parlb
        ∧ attrs self' !! "var_dict" = Some var_dict
        ∧ attrs other' !! "var_dict" = Some var_dict
        ∧ attrs self' !! "obj_dict" = Some obj_dict
        ∧ attrs other' !! "obj_dict" = Some obj_dict
        ∧ attrs other' !! "ctol" = attrs other !! "ctol"
        ∧ @step_CI _ (Toy.pyomo Toy.flat (None, None)) Toy.numerics other' "p" "up" 0.01
            (Toy.Model 10 1)
          = (Raised (AttributeError "ctol"), Toy.Model 10 1, []).
Proof.
  intros other.
  assert (match Toy.intervals.1.1 with
          | Returned (_, self') =>
              match @to_json _ Toy.json self' "ci.json" ∅ with
              | (Returned _, _) => true
              | _ => false
              end
          | _ => false
          end = true) as Hb by (vm_compute; reflexivity).
  destruct Toy.intervals.1.1 as [[res self']|e|]; try discriminate Hb.
  destruct (@to_json _ Toy.json self' "ci.json" ∅) as [[[]|e|] fs'] eqn:Ht;
    try discriminate Hb.
  assert (attrs other !! "ctol" = None) as Hno by (vm_compute; reflexivity).
  assert (is_Some (pbounds other !! "p")) as Hp by (eexists; vm_compute; reflexivity).
  exists res, self', fs'. split; [reflexivity|]. split; [exact Ht|].
  split; [exact Hno|]. split; [exact Hp|].
  destruct (X15_reloaded_session (Json0 := Toy.json)
              (Pyomo0 := Toy.pyomo Toy.flat (None, None))
              self' other "ci.json" ∅ fs' "p" "up" 0.01 (Toy.Model 10 1)
              (fun v => eq_refl) Ht)
    as (other' & v1 & v2 & v3 & v4 & v5 & Hl & H1 & H1' & H2 & H2' & H3 & H3'
        & H4 & H4' & H5 & H5' & Hct & Hstep).
  exists other', v1, v2, v3, v4, v5.
  repeat (split; [assumption|]). exact (Hstep Hno Hp).
Defined.

(** A parameter named [k_1] beside one named [k]: the trajectory of
    [k_1] is taken for [k], and [k_1] gets no key. *)
Lemma X16_witness :
  let vd : gmap string float :=
    {[ key "k_1" "up" 0 := 1; key "k" "up" 1 := 2; key "k" "down" 0 := 3;
       key "j" "down" 0 := 4 ]} in
  split_head "k_1" ≠ "k_1"
  ∧ pkeys "k_1" vd = []
  ∧ pkeys "k" vd = ["k_1_up_0"; "k_down_0"; "k_up_1"]
  ∧ key "k_1" "up" 0 ∈ pkeys "k" vd.
Proof.
  intros vd.
  destruct (X16_plot_keys "k_1" vd) as (_ & _ & Hnone & _).
  destruct (X16_plot_keys "k" vd) as (_ & Hkey & _ & _).
  assert (split_head "k_1" ≠ "k_1") as Hne by (vm_compute; discriminate).
  split; [exact Hne|]. split; [exact (Hnone Hne)|].
  split; [vm_compute; reflexivity|].
  apply Hkey. split; [|vm_compute; reflexivity].
  vm_compute. eexists. reflexivity.
Defined.
